(** * zapdriver: the label-merging core (core.go)

    A shallow embedding of the decorator that zapdriver wraps around a zap
    core.  Go strings are byte strings ([string]); a Go [map[string]string]
    is a [gmap string string]; a [*labels] is a location in a heap of label
    stores, so that sharing and copying of label sets is visible; the
    wrapped zap core is an abstract backend whose state is threaded
    explicitly.  The mutexes of [labels] guard against data races only and
    have no sequential effect; they are not modelled. *)

From Stdlib Require Import ZArith NArith Ascii String List Bool Lia.
From stdpp Require Import base gmap strings list fin_maps.

Local Open Scope string_scope.
Local Open Scope list_scope.

(** ** Go's [strings] package (the two functions core.go relies on) *)

Module strings.

(** [strings.HasPrefix(s, prefix)] *)
Definition HasPrefix (s pre : string) : bool := String.prefix pre s.

Fixpoint drop (n : nat) (s : string) : string :=
  match n, s with
  | O, _ => s
  | S _, EmptyString => EmptyString
  | S n', String _ s' => drop n' s'
  end.

(** [strings.Replace(s, old, new, 1)]: the leftmost occurrence of [old]
    in [s] is replaced by [new]; [s] is returned as it is when [old]
    does not occur.  (An empty [old] matches at the start of [s].) *)
Fixpoint Replace1 (s old new : string) : string :=
  if String.prefix old s then new +:+ drop (String.length old) s
  else match s with
       | EmptyString => EmptyString
       | String a s' => String a (Replace1 s' old new)
       end.

End strings.

(** ** zapcore: fields, entries, levels, checked entries, the Core interface *)

(** A [*labels] value: the address of a label store. *)
Abbreviation loc := positive (only parsing).

(** The heap of label stores: [h !! l] is the [store] map of the [labels]
    object at address [l]. *)
Abbreviation heap := (gmap positive (gmap string string)) (only parsing).

Module zapcore.

(** [zapcore.FieldType] *)
Inductive FieldType :=
| UnknownType | ArrayMarshalerType | ObjectMarshalerType | BinaryType
| BoolType | ByteStringType | Complex128Type | Complex64Type
| DurationType | Float64Type | Float32Type | Int64Type | Int32Type
| Int16Type | Int8Type | StringType | TimeType | TimeFullType
| Uint64Type | Uint32Type | Uint16Type | Uint8Type | UintptrType
| ReflectType | NamespaceType | StringerType | ErrorType | SkipType
| InlineMarshalerType.

(** What a field's [Interface interface{}] member can hold here: nothing,
    a [*labels], one of the three stanza objects, or some other value of
    the application (opaque, identified by a tag). *)
Inductive iface :=
| iface_nil
| iface_labels (l : loc)
| iface_source (pc : N) (file : string) (line : Z) (synthetic : bool)
| iface_serviceContext (name version : string)
| iface_reportContext (pc : N) (file : string) (line : Z) (synthetic : bool)
| iface_other (tag : N).

(** [zapcore.Field] ([Type] and [String] are taken in Rocq). *)
Record Field := mkField {
  Key : string;
  Type_ : FieldType;
  Integer : Z;
  String_ : string;
  Interface : iface
}.

(** [zapcore.EntryCaller] *)
Record EntryCaller := mkCaller {
  Defined : bool;
  PC : N;
  File : string;
  Line : Z
}.

(** [zapcore.Level] is an [int8]. *)
Definition DebugLevel : Z := -1.
Definition InfoLevel : Z := 0.
Definition WarnLevel : Z := 1.
Definition ErrorLevel : Z := 2.
Definition DPanicLevel : Z := 3.
Definition PanicLevel : Z := 4.
Definition FatalLevel : Z := 5.

(** [func (l Level) Enabled(lvl Level) bool { return lvl >= l }] *)
Definition Level_Enabled (l lvl : Z) : bool := (l <=? lvl)%Z.

(** [zapcore.Entry] *)
Record Entry := mkEntry {
  Level : Z;
  Time : Z;
  LoggerName : string;
  Message : string;
  Caller : EntryCaller;
  Stack : string
}.

(** Go's [error]: [None] is [nil]. *)
Definition error := option string.

(** [zapcore.CheckedEntry]: the entry and the cores that agreed to log
    it.  A [*CheckedEntry] may be nil: [option]. *)
Record CheckedEntry (C : Type) := mkChecked {
  ce_Entry : Entry;
  ce_cores : list C
}.
Arguments mkChecked {C} _ _.
Arguments ce_Entry {C} _.
Arguments ce_cores {C} _.

(** [func (ce *CheckedEntry) AddCore(ent Entry, core Core) *CheckedEntry]:
    a nil receiver is replaced by a new checked entry for [ent]; the core
    is appended to the registered cores. *)
Definition AddCore {C} (ce : option (CheckedEntry C)) (ent : Entry) (c : C)
  : option (CheckedEntry C) :=
  let ce' := match ce with
             | None => mkChecked ent []
             | Some ce => ce
             end in
  Some (mkChecked (ce_Entry ce') (ce_cores ce' ++ [c])).

End zapcore.

Import zapcore.

(** The [zapcore.Core] interface as the decorator uses it, over a backend
    state [B].  A backend may read the label stores that fields point to
    (when it encodes them) but has no access to write them. *)
Module Backend.
Class Ops (B : Type) := {
  Enabled : B -> Z -> bool;
  With : B -> heap -> list Field -> B;
  Write : B -> heap -> Entry -> list Field -> B * error;
  Sync : B -> B * error
}.
End Backend.

(** ** zap field constructors *)

Module zap.
Definition String (key val : string) : Field :=
  mkField key StringType 0 val iface_nil.
Definition Int64 (key : string) (val : Z) : Field :=
  mkField key Int64Type val "" iface_nil.
Definition Object (key : string) (val : iface) : Field :=
  mkField key ObjectMarshalerType 0 "" val.
End zap.

(** ** labels.go, source.go, service.go, report.go

    Only core.go is at hand; what it uses of its sibling files is modelled
    here from the specification. *)

(** Modelled from the spec: [newLabels] (labels.go) creates an empty
    LabelSet; here, a store at an address that is not in use. *)
Definition newLabels (h : heap) : loc * heap :=
  let l := fresh (dom h) in (l, <[l := ∅]> h).

(** Modelled from the spec: the [reset] method of [labels] (labels.go)
    discards all entries of the LabelSet. *)
Definition reset (h : heap) (l : loc) : heap := <[l := ∅]> h.

(** [l.store[k] = v] *)
Definition store_set (h : heap) (l : loc) (k v : string) : heap :=
  <[l := <[k := v]> (h !!! l)]> h.

(** [for k, v := range src.store { dst.store[k] = v }] *)
Definition copy_store (h : heap) (src dst : loc) : heap :=
  map_fold (fun k v h' => store_set h' dst k v) h (h !!! src).

(** Modelled from the spec: [isLabelField] (labels.go) is the classifier
    [isLabel]: true iff the field's key starts with the reserved prefix. *)
Definition isLabelField (f : Field) : bool :=
  strings.HasPrefix (Key f) "labels.".

(** Modelled from the spec: the reserved keys (labels.go, source.go,
    service.go, report.go) are the field names of the ingestion schema. *)
Definition labelsKey : string := "logging.googleapis.com/labels".
Definition sourceKey : string := "logging.googleapis.com/sourceLocation".
Definition serviceContextKey : string := "serviceContext".
Definition contextKey : string := "context".

(** Modelled from the spec: [labelsField] (labels.go) is the single
    namespaced labels field, carrying the LabelSet as its value. *)
Definition labelsField (l : loc) : Field :=
  zap.Object labelsKey (iface_labels l).

(** Modelled from the spec: [mergeLabelFields] (labels.go) appends the
    labels field to the non-label fields, also when the set is empty
    (step 3 of write). *)
Definition mergeLabelFields (fields : list Field) (lbls : loc) : list Field :=
  fields ++ [labelsField lbls].

(** Modelled from the spec: [SourceLocation] (source.go), a pure
    constructor from (programCounter, file, line, isSynthetic) of the
    source-location field. *)
Definition SourceLocation (pc : N) (file : string) (line : Z) (ok : bool)
  : Field :=
  zap.Object sourceKey (iface_source pc file line ok).

(** Modelled from the spec: [ServiceContext] (service.go), a pure
    constructor from (name, version) of the service-context field. *)
Definition ServiceContext (name version : string) : Field :=
  zap.Object serviceContextKey (iface_serviceContext name version).

(** Modelled from the spec: [ErrorReport] (report.go), a pure constructor
    from (programCounter, file, line, isSynthetic) of the error-report
    field. *)
Definition ErrorReport (pc : N) (file : string) (line : Z) (ok : bool)
  : Field :=
  zap.Object contextKey (iface_reportContext pc file line ok).

(** ** regexp: [functionNamePattern = (?m)^(\S+)$]

    [regexp.ReplaceAllString] for this one pattern.  [\s] is
    [[\t\n\f\r ]] in Go's syntax, [\S] its complement; with [(?m)], [^]
    holds at the start of the text and after a newline, [$] at the end of
    the text and before a newline. *)

Module regexp.

Definition newline : ascii := "010"%char.

Definition is_space (a : ascii) : bool :=
  (Ascii.eqb a "009" || Ascii.eqb a "010" || Ascii.eqb a "012"
   || Ascii.eqb a "013" || Ascii.eqb a " ")%char.

(** The longest run of [\S] bytes at the head of [s], and what follows. *)
Fixpoint span_S (s : string) : string * string :=
  match s with
  | EmptyString => (EmptyString, EmptyString)
  | String a s' =>
      if is_space a then (EmptyString, s)
      else let (run, rest) := span_S s' in (String a run, rest)
  end.

(** [$] at the position in front of [s]. *)
Definition at_eol (s : string) : bool :=
  match s with
  | EmptyString => true
  | String a _ => Ascii.eqb a newline
  end.

(** A match of [^(\S+)$] starting at the position in front of [s], where
    [bol] tells whether [^] holds there: the text of group 1 and the
    rest.  [\S+] is greedy; giving back bytes of the run never helps,
    since [$] does not hold in front of a [\S] byte. *)
Definition match_here (bol : bool) (s : string) : option (string * string) :=
  if bol then
    let (run, rest) := span_S s in
    match run with
    | EmptyString => None
    | String _ _ => if at_eol rest then Some (run, rest) else None
    end
  else None.

(** The template [$1(...)]. *)
Definition expand (group1 : string) : string := group1 +:+ "(...)".

(** Successive leftmost matches are replaced, the text between them is
    copied.  Every step consumes a byte, so [fuel] above the length of
    the text is never used up. *)
Fixpoint replace_all (fuel : nat) (bol : bool) (s : string) : string :=
  match fuel with
  | O => s
  | S fuel' =>
      match match_here bol s with
      | Some (m, rest) => expand m +:+ replace_all fuel' false rest
      | None =>
          match s with
          | EmptyString => EmptyString
          | String a s' =>
              String a (replace_all fuel' (Ascii.eqb a newline) s')
          end
      end
  end.

(** [functionNamePattern.ReplaceAllString(src, "$1(...)")] *)
Definition ReplaceAllString (src : string) : string :=
  replace_all (S (String.length src)) true src.

End regexp.

(** ** core.go *)

(** [driverConfig] *)
Record driverConfig := mkConfig {
  ReportAllErrors : bool;
  ServiceName : string;
  ServiceVersion : string
}.

(** [core]: the embedded [zapcore.Core], the two label sets and the
    configuration. *)
Record core (B : Type) := mkCore {
  Core : B;
  permLabels : loc;
  tempLabels : loc;
  config : driverConfig
}.
Arguments mkCore {B} _ _ _ _.
Arguments Core {B} _.
Arguments permLabels {B} _.
Arguments tempLabels {B} _.
Arguments config {B} _.

(** The options [ReportAllErrors], [ServiceName], [ServiceVersion]: each
    sets one member of the configuration of the core under construction. *)
Module options.
Definition ReportAllErrors {B} (report : bool) (c : core B) : core B :=
  let 'mkConfig _ name version := config c in
  mkCore (Core c) (permLabels c) (tempLabels c)
    (mkConfig report name version).
Definition ServiceName {B} (name : string) (c : core B) : core B :=
  let 'mkConfig report _ version := config c in
  mkCore (Core c) (permLabels c) (tempLabels c)
    (mkConfig report name version).
Definition ServiceVersion {B} (version : string) (c : core B) : core B :=
  let 'mkConfig report name _ := config c in
  mkCore (Core c) (permLabels c) (tempLabels c)
    (mkConfig report name version).
End options.

(** [WrapCore]: a core around [b] with two new, empty label sets and the
    zero configuration, to which the options are applied in order. *)
Definition WrapCore {B} (opts : list (core B -> core B)) (h : heap) (b : B)
  : heap * core B :=
  let (perm, h1) := newLabels h in
  let (temp, h2) := newLabels h1 in
  (h2, fold_left (fun c option => option c) opts
         (mkCore b perm temp (mkConfig false "" ""))).

(** The loop of [extractLabels]: a field that is no label field is
    appended to [out]; a label field is stored in [lbls] under its key
    without the first ["labels."], with its [String] member as value. *)
Fixpoint extractLabels_loop (h : heap) (lbls : loc) (out : list Field)
    (fields : list Field) : heap * list Field :=
  match fields with
  | [] => (h, out)
  | f :: fields' =>
      if negb (isLabelField f)
      then extractLabels_loop h lbls (out ++ [f]) fields'
      else extractLabels_loop
             (store_set h lbls (strings.Replace1 (Key f) "labels." "")
                (String_ f))
             lbls out fields'
  end.

(** [extractLabels] (the receiver is not used). *)
Definition extractLabels (h : heap) (fields : list Field)
  : heap * loc * list Field :=
  let (lbls, h1) := newLabels h in
  let (h2, out) := extractLabels_loop h1 lbls [] fields in
  (h2, lbls, out).

(** The loops [for i := range fields { if fields[i].Key == key {...} }]. *)
Fixpoint has_key (key : string) (fields : list Field) : bool :=
  match fields with
  | [] => false
  | f :: fields' => if String.eqb (Key f) key then true else has_key key fields'
  end.

(** [withSourceLocation] (the receiver is not used). *)
Definition withSourceLocation (ent : Entry) (fields : list Field)
  : list Field :=
  if has_key sourceKey fields then fields
  else if negb (Defined (Caller ent)) then fields
  else fields ++ [SourceLocation (PC (Caller ent)) (File (Caller ent))
                    (Line (Caller ent)) true].

(** [withServiceContext] (the receiver is not used). *)
Definition withServiceContext (name version : string) (fields : list Field)
  : list Field :=
  if has_key serviceContextKey fields then fields
  else fields ++ [ServiceContext name version].

(** [withErrorReport] (the receiver is not used). *)
Definition withErrorReport (ent : Entry) (fields : list Field) : list Field :=
  if has_key contextKey fields then fields
  else if negb (Defined (Caller ent)) then fields
  else fields ++ [ErrorReport (PC (Caller ent)) (File (Caller ent))
                    (Line (Caller ent)) true].

Definition nl : string := String regexp.newline EmptyString.

(** The text that [Write] puts between the message and the stack. *)
Definition stackHeader : string :=
  nl +:+ nl +:+ "goroutine 1 [running]:" +:+ nl.

(** Lines 160-170 of [Write]: the stack is folded into the message. *)
Definition foldStack (ent : Entry) : Entry :=
  if negb (String.eqb (Stack ent) "") then
    let message := Message ent +:+ stackHeader in
    let replaced := regexp.ReplaceAllString (Stack ent) in
    mkEntry (Level ent) (Time ent) (LoggerName ent) (message +:+ replaced)
      (Caller ent) ""
  else ent.

(** Lines 144-155 of [Write]: the source location, the service context
    and the error report are added to the fields. *)
Definition withStanzas (config : driverConfig) (ent : Entry)
    (fields : list Field) : list Field :=
  let fields := withSourceLocation ent fields in
  let fields :=
    if negb (String.eqb (ServiceName config) "")
    then withServiceContext (ServiceName config) (ServiceVersion config) fields
    else fields in
  if ReportAllErrors config && Level_Enabled ErrorLevel (Level ent)
  then
    let fields := withErrorReport ent fields in
    if String.eqb (ServiceName config) ""
    then withServiceContext "unknown" (ServiceVersion config) fields
    else fields
  else fields.

Section decorator.

Context {B : Type} `{!Backend.Ops B}.

(** [allLabels]: a new label set that receives the permanent labels and
    then the temporary ones. *)
Definition allLabels (h : heap) (c : core B) : heap * loc :=
  let (lbls, h1) := newLabels h in
  let h2 := copy_store h1 (permLabels c) lbls in
  let h3 := copy_store h2 (tempLabels c) lbls in
  (h3, lbls).

(** [With]: the child core. *)
Definition With (h : heap) (c : core B) (fields : list Field)
  : heap * core B :=
  let '(h1, lbls, fields1) := extractLabels h fields in
  let (perm, h2) := newLabels h1 in
  let h3 := copy_store h2 (permLabels c) perm in
  let h4 := copy_store h3 lbls perm in
  let b := Backend.With (Core c) h4 fields1 in
  let (temp, h5) := newLabels h4 in
  (h5, mkCore b perm temp (config c)).

(** [Enabled] is the method of the embedded core. *)
Definition Enabled (c : core B) (lvl : Z) : bool :=
  Backend.Enabled (Core c) lvl.

(** [Check] *)
Definition Check (c : core B) (ent : Entry)
    (ce : option (CheckedEntry (core B))) : option (CheckedEntry (core B)) :=
  if Enabled c (Level ent) then AddCore ce ent c else ce.

(** Lines 132-170 of [Write]: all of it but the last call.  The result is
    the heap, the entry and the fields with which the wrapped core's
    [Write] is then called. *)
Definition Write_record (h : heap) (c : core B) (ent : Entry)
    (fields : list Field) : heap * Entry * list Field :=
  let '(h1, lbls, fields1) := extractLabels h fields in
  let h2 := copy_store h1 lbls (tempLabels c) in
  let (h3, all) := allLabels h2 c in
  let fields2 := mergeLabelFields fields1 all in
  let fields3 := withStanzas (config c) ent fields2 in
  let h4 := reset h3 (tempLabels c) in
  (h4, foldStack ent, fields3).

(** [Write]: the heap, the core (its wrapped core has moved on) and the
    error after the call. *)
Definition Write (h : heap) (c : core B) (ent : Entry) (fields : list Field)
  : heap * core B * error :=
  let '(h', ent', fields') := Write_record h c ent fields in
  let (b, err) := Backend.Write (Core c) h' ent' fields' in
  (h', mkCore b (permLabels c) (tempLabels c) (config c), err).

(** [Sync] *)
Definition Sync (c : core B) : core B * error :=
  let (b, err) := Backend.Sync (Core c) in
  (mkCore b (permLabels c) (tempLabels c) (config c), err).

End decorator.

(** ** A backend to run the decorator on

    It logs at and above a minimum level, keeps the fields attached by
    [With], records every entry it is asked to write together with the
    fields, and answers [Write] and [Sync] with the error it was set up
    with. *)
Record recorder := mkRecorder {
  rec_minLevel : Z;
  rec_context : list Field;
  rec_written : list (Entry * list Field);
  rec_error : error
}.

#[export] Instance recorder_ops : Backend.Ops recorder := {|
  Backend.Enabled b lvl := (rec_minLevel b <=? lvl)%Z;
  Backend.With b _ fields :=
    mkRecorder (rec_minLevel b) (rec_context b ++ fields) (rec_written b)
      (rec_error b);
  Backend.Write b _ ent fields :=
    (mkRecorder (rec_minLevel b) (rec_context b)
       (rec_written b ++ [(ent, rec_context b ++ fields)]) (rec_error b),
     rec_error b);
  Backend.Sync b := (b, rec_error b)
|}.

(** ** Notions of the specification *)

(** A label's logical name: the key with the prefix stripped. *)
Definition stripPrefix (key : string) : string :=
  strings.drop (String.length "labels.") key.

Definition notLabelField (f : Field) : bool := negb (isLabelField f).

(** The labels that a field sequence carries, in the order of the fields. *)
Definition labelPairs (fields : list Field) : list (string * string) :=
  List.map (fun f => (stripPrefix (Key f), String_ f))
    (List.filter isLabelField fields).

(** The LabelSet of a field sequence; on duplicate names the last field
    wins ([list_to_map] lets the first pair win, hence the reversal). *)
Definition labelsOf (fields : list Field) : gmap string string :=
  list_to_map (reverse (labelPairs fields)).

(** The value of the last label field named [name], if there is one. *)
Fixpoint lastLabel (name : string) (fields : list Field) : option string :=
  match fields with
  | [] => None
  | f :: fields' =>
      match lastLabel name fields' with
      | Some v => Some v
      | None =>
          if isLabelField f && String.eqb (stripPrefix (Key f)) name
          then Some (String_ f) else None
      end
  end.

(** The fields that carry a given key. *)
Definition with_key (key : string) (fields : list Field) : list Field :=
  List.filter (fun f => String.eqb (Key f) key) fields.

(** The label object of an emitted record: what the last field with the
    labels key points to.  (The decorator appends its labels field after
    the fields of the call.) *)
Definition labelsObject (h : heap) (fields : list Field)
  : option (gmap string string) :=
  match last (with_key labelsKey fields) with
  | Some f => match Interface f with
              | iface_labels l => h !! l
              | _ => None
              end
  | None => None
  end.

(** A decorator in a heap: its two label sets are allocated and are not
    the same object. *)
Definition wf {B} (h : heap) (c : core B) : Prop :=
  permLabels c ∈ dom h ∧ tempLabels c ∈ dom h ∧ permLabels c ≠ tempLabels c.

#[export] Instance wf_dec {B} (h : heap) (c : core B) : Decision (wf h c) :=
  ltac:(unfold wf; apply _).

(** The value that a field carries, by its type: the member that zap's
    constructors fill in for that type. *)
Inductive value :=
| VString (s : string)
| VInteger (z : Z)
| VInterface (i : iface).

Definition fieldValue (f : Field) : value :=
  match Type_ f with
  | StringType => VString (String_ f)
  | ArrayMarshalerType | ObjectMarshalerType | InlineMarshalerType
  | BinaryType | ByteStringType | Complex128Type | Complex64Type
  | TimeFullType | ReflectType | StringerType | ErrorType | UnknownType
  | NamespaceType | SkipType => VInterface (Interface f)
  | _ => VInteger (Integer f)
  end.

(** The stack text by lines: [lines] splits at every newline, [unlines]
    joins with newlines, and a line that is one non-whitespace token gets
    the call marker. *)
Fixpoint lines (s : string) : list string :=
  match s with
  | EmptyString => [EmptyString]
  | String a s' =>
      if Ascii.eqb a regexp.newline then EmptyString :: lines s'
      else match lines s' with
           | [] => [String a EmptyString]
           | l :: ls => String a l :: ls
           end
  end.

Fixpoint unlines (ls : list string) : string :=
  match ls with
  | [] => EmptyString
  | [l] => l
  | l :: ls' => l +:+ nl +:+ unlines ls'
  end.

Fixpoint all_nonspace (s : string) : bool :=
  match s with
  | EmptyString => true
  | String a s' => negb (regexp.is_space a) && all_nonspace s'
  end.

Definition is_token (line : string) : bool :=
  negb (String.eqb line "") && all_nonspace line.

Definition markLine (line : string) : string :=
  if is_token line then line +:+ "(...)" else line.

Definition markStack (stack : string) : string :=
  unlines (List.map markLine (lines stack)).

(** ** Sample runs *)

Definition sample_backend : recorder := mkRecorder InfoLevel [] [] None.

(** A decorator from [WrapCore] that reports all errors and has no service
    name, and a child of it with the permanent label p = q. *)
Definition sample_root : heap * core recorder :=
  WrapCore [options.ReportAllErrors true] ∅ sample_backend.

Definition sample_child : heap * core recorder :=
  With sample_root.1 sample_root.2
    [zap.String "labels.p" "q"; zap.String "svc" "api"].

Definition sample_caller : EntryCaller := mkCaller true 4198400 "main.go" 42.

Definition sample_entry : Entry :=
  mkEntry ErrorLevel 0 "" "boom" sample_caller
    ("main.foo" +:+ nl +:+ "main.bar").

(** An entry at error level without caller information (what zap builds
    when caller annotation is off). *)
Definition sample_entry_no_caller : Entry :=
  mkEntry ErrorLevel 0 "" "boom" (mkCaller false 0 "" 0) "".

(** A label field whose value is an integer. *)
Definition sample_integer_label : Field := zap.Int64 "labels.n" 5.

Definition sample_fields : list Field :=
  [zap.String "labels.a" "1"; zap.String "user" "u7";
   zap.String "labels.b" "2"].

(** ** The rest of core.go *)

(** The loop of [withLabels]: as in [extractLabels], with the test the
    other way round. *)
Fixpoint withLabels_loop (h : heap) (lbls : loc) (out : list Field)
    (fields : list Field) : heap * list Field :=
  match fields with
  | [] => (h, out)
  | f :: fields' =>
      if isLabelField f
      then withLabels_loop
             (store_set h lbls (strings.Replace1 (Key f) "labels." "")
                (String_ f))
             lbls out fields'
      else withLabels_loop h lbls (out ++ [f]) fields'
  end.

(** [withLabels] (the receiver is not used): the fields that are no label
    fields, followed by the labels field of a new label set that holds the
    labels of the others. *)
Definition withLabels (h : heap) (fields : list Field) : heap * list Field :=
  let (lbls, h1) := newLabels h in
  let (h2, out) := withLabels_loop h1 lbls [] fields in
  (h2, out ++ [labelsField lbls]).

(** The options that core.go offers, by the member they set. *)
Definition sets_ReportAllErrors {B} (o : core B -> core B) : Prop :=
  exists report, o = options.ReportAllErrors report.
Definition sets_ServiceName {B} (o : core B -> core B) : Prop :=
  exists name, o = options.ServiceName name.
Definition sets_ServiceVersion {B} (o : core B -> core B) : Prop :=
  exists version, o = options.ServiceVersion version.

Definition zapdriver_option {B} (o : core B -> core B) : Prop :=
  sets_ReportAllErrors o \/ sets_ServiceName o \/ sets_ServiceVersion o.

(** The keys of the three stanzas. *)
Definition stanzaKey (key : string) : bool :=
  String.eqb key sourceKey || String.eqb key serviceContextKey
  || String.eqb key contextKey.

Fixpoint no_newline (s : string) : bool :=
  match s with
  | EmptyString => true
  | String a s' => negb (Ascii.eqb a regexp.newline) && no_newline s'
  end.

(** ** core.go over any classifier

    [isLabelField] is defined in labels.go.  The functions of core.go that
    call it are given here once more with the classifier as a parameter,
    so that what line 211 stores can be stated whatever the classifier
    accepts. *)

(** The name under which line 211 stores a label. *)
Definition labelName (f : Field) : string :=
  strings.Replace1 (Key f) "labels." "".

Section classifier.

Variable isLabel : Field -> bool.

(** The loop of [extractLabels]. *)
Fixpoint extractLabels_loop_by (h : heap) (lbls : loc) (out : list Field)
    (fields : list Field) : heap * list Field :=
  match fields with
  | [] => (h, out)
  | f :: fields' =>
      if negb (isLabel f)
      then extractLabels_loop_by h lbls (out ++ [f]) fields'
      else extractLabels_loop_by
             (store_set h lbls (strings.Replace1 (Key f) "labels." "")
                (String_ f))
             lbls out fields'
  end.

(** [extractLabels] *)
Definition extractLabels_by (h : heap) (fields : list Field)
  : heap * loc * list Field :=
  let (lbls, h1) := newLabels h in
  let (h2, out) := extractLabels_loop_by h1 lbls [] fields in
  (h2, lbls, out).

(** The labels that a field sequence carries for this classifier, and its
    label set (the last field wins for a name). *)
Definition labelPairs_by (fields : list Field) : list (string * string) :=
  List.map (fun f => (labelName f, String_ f)) (List.filter isLabel fields).

Definition labelsOf_by (fields : list Field) : gmap string string :=
  list_to_map (reverse (labelPairs_by fields)).

Context {B : Type} `{!Backend.Ops B}.

(** [With] *)
Definition With_by (h : heap) (c : core B) (fields : list Field)
  : heap * core B :=
  let '(h1, lbls, fields1) := extractLabels_by h fields in
  let (perm, h2) := newLabels h1 in
  let h3 := copy_store h2 (permLabels c) perm in
  let h4 := copy_store h3 lbls perm in
  let b := Backend.With (Core c) h4 fields1 in
  let (temp, h5) := newLabels h4 in
  (h5, mkCore b perm temp (config c)).

(** Lines 132-170 of [Write]. *)
Definition Write_record_by (h : heap) (c : core B) (ent : Entry)
    (fields : list Field) : heap * Entry * list Field :=
  let '(h1, lbls, fields1) := extractLabels_by h fields in
  let h2 := copy_store h1 lbls (tempLabels c) in
  let (h3, all) := allLabels h2 c in
  let fields2 := mergeLabelFields fields1 all in
  let fields3 := withStanzas (config c) ent fields2 in
  let h4 := reset h3 (tempLabels c) in
  (h4, foldStack ent, fields3).

End classifier.

(** A classifier that accepts a field when its key has the prefix and it
    is of string type. *)
Definition isLabelField_typed (f : Field) : bool :=
  strings.HasPrefix (Key f) "labels."
  && match Type_ f with StringType => true | _ => false end.

(** ** Strings *)

Lemma prefix_drop (p s : string) :
  String.prefix p s = true -> s = p +:+ strings.drop (String.length p) s.
Proof.
  revert s. induction p as [|a p IH]; intros s Hp; [reflexivity|].
  destruct s as [|b s]; [discriminate|]. simpl in Hp.
  destruct (ascii_dec a b) as [->|]; [|discriminate].
  change (String b s = String b (p +:+ strings.drop (String.length p) s)).
  f_equal. by apply IH.
Qed.

Lemma Replace1_prefix (s old : string) :
  strings.HasPrefix s old = true ->
  strings.Replace1 s old "" = strings.drop (String.length old) s.
Proof.
  unfold strings.HasPrefix. intros Hp.
  destruct s; cbn [strings.Replace1]; rewrite Hp; reflexivity.
Qed.

Lemma Replace1_label (f : Field) :
  isLabelField f = true ->
  strings.Replace1 (Key f) "labels." "" = stripPrefix (Key f).
Proof. intros Hf. by apply Replace1_prefix. Qed.

Lemma stripPrefix_inj (f g : Field) :
  isLabelField f = true -> isLabelField g = true ->
  stripPrefix (Key f) = stripPrefix (Key g) -> Key f = Key g.
Proof.
  intros Hf Hg Heq.
  rewrite (prefix_drop "labels." (Key f) Hf), (prefix_drop "labels." (Key g) Hg).
  unfold stripPrefix in Heq. by rewrite Heq.
Qed.

(** ** The heap of label stores *)

Lemma newLabels_fresh (h : heap) : (newLabels h).1 ∉ dom h.
Proof. apply is_fresh. Qed.

Lemma dom_insert_old (h : heap) (l x : loc) (m : gmap string string) :
  x ∈ dom h -> x ∈ dom (<[l := m]> h).
Proof. rewrite dom_insert_L. set_solver. Qed.

Lemma dom_insert_new (h : heap) (l : loc) (m : gmap string string) :
  l ∈ dom (<[l := m]> h).
Proof. rewrite dom_insert_L. set_solver. Qed.

Lemma allocated_not_fresh (h : heap) (x : loc) :
  x ∈ dom h -> x ≠ fresh (dom h).
Proof. intros Hx ->. by apply (is_fresh (dom h)). Qed.

Create HintDb labels_heap.
#[export] Hint Resolve dom_insert_old dom_insert_new allocated_not_fresh
  : labels_heap.

Lemma store_set_twice (h : heap) (l : loc) (m : gmap string string) k v :
  store_set (<[l := m]> h) l k v = <[l := <[k := v]> m]> h.
Proof.
  unfold store_set. by rewrite lookup_total_insert_eq, insert_insert_eq.
Qed.

Lemma copy_store_union (h : heap) (src dst : loc) :
  dst ∈ dom h ->
  copy_store h src dst = <[dst := (h !!! src) ∪ (h !!! dst)]> h.
Proof.
  intros Hdst. unfold copy_store.
  apply (map_fold_weak_ind
           (fun (r : heap) (m : gmap string string) =>
              r = <[dst := m ∪ (h !!! dst)]> h)).
  - rewrite (left_id_L ∅ (∪)). symmetry. apply insert_id.
    apply elem_of_dom in Hdst as [x Hx].
    by rewrite (lookup_total_correct _ _ _ Hx).
  - intros k v m r _ ->. rewrite store_set_twice. by rewrite insert_union_l.
Qed.

(** ** Label extraction *)

Lemma labelsOf_nil : labelsOf [] = ∅.
Proof. reflexivity. Qed.

Lemma labelsOf_cons_other (f : Field) (fields : list Field) :
  isLabelField f = false -> labelsOf (f :: fields) = labelsOf fields.
Proof. intros Hf. unfold labelsOf, labelPairs. simpl. by rewrite Hf. Qed.

Lemma labelsOf_cons_label (f : Field) (fields : list Field)
    (m : gmap string string) :
  isLabelField f = true ->
  labelsOf (f :: fields) ∪ m
  = labelsOf fields ∪ <[stripPrefix (Key f) := String_ f]> m.
Proof.
  intros Hf. unfold labelsOf, labelPairs. simpl. rewrite Hf. simpl.
  rewrite reverse_cons, list_to_map_app. simpl.
  rewrite insert_empty, <- (assoc_L (∪)).
  by rewrite <- insert_union_singleton_l.
Qed.

Lemma labelsOf_lookup (name : string) (fields : list Field) :
  labelsOf fields !! name = lastLabel name fields.
Proof.
  induction fields as [|f fields IH]; [reflexivity|].
  simpl. rewrite <- IH. destruct (isLabelField f) eqn:Hf.
  - pose proof (labelsOf_cons_label f fields ∅ Hf) as H.
    rewrite (right_id_L ∅ (∪)) in H. rewrite H.
    rewrite lookup_union. destruct (labelsOf fields !! name) as [v|] eqn:Hl.
    + by rewrite union_Some_l.
    + rewrite (left_id_L None union). simpl.
      destruct (String.eqb_spec (stripPrefix (Key f)) name) as [->|Hne].
      * by rewrite lookup_insert_eq.
      * by rewrite lookup_insert_ne.
  - rewrite (labelsOf_cons_other _ _ Hf). by destruct (labelsOf fields !! name).
Qed.

Lemma extractLabels_loop_spec (fields : list Field) :
  forall (h : heap) (lbls : loc) (out : list Field),
    extractLabels_loop h lbls out fields
    = (match List.filter isLabelField fields with
       | [] => h
       | _ => <[lbls := labelsOf fields ∪ (h !!! lbls)]> h
       end,
       out ++ List.filter notLabelField fields).
Proof.
  induction fields as [|f fields IH]; intros h lbls out; simpl.
  - by rewrite app_nil_r.
  - unfold notLabelField at 1. destruct (isLabelField f) eqn:Hf; simpl.
    + rewrite IH. f_equal. rewrite (Replace1_label _ Hf).
      unfold store_set. rewrite lookup_total_insert_eq.
      rewrite (labelsOf_cons_label _ _ _ Hf).
      destruct (List.filter isLabelField fields) eqn:Hl.
      * assert (labelsOf fields = ∅) as ->
          by (unfold labelsOf, labelPairs; by rewrite Hl).
        by rewrite (left_id_L ∅ (∪)).
      * by rewrite insert_insert_eq.
    + rewrite IH. f_equal.
      * rewrite (labelsOf_cons_other _ _ Hf). reflexivity.
      * by rewrite <- app_assoc.
Qed.

Lemma extractLabels_spec (h : heap) (fields : list Field) :
  extractLabels h fields
  = (<[fresh (dom h) := labelsOf fields]> h, fresh (dom h),
     List.filter notLabelField fields).
Proof.
  unfold extractLabels, newLabels. rewrite extractLabels_loop_spec.
  rewrite lookup_total_insert_eq, (right_id_L ∅ (∪)). simpl.
  destruct (List.filter isLabelField fields) eqn:Hl; [|by rewrite insert_insert_eq].
  assert (labelsOf fields = ∅) as ->
      by (unfold labelsOf, labelPairs; by rewrite Hl).
  reflexivity.
Qed.

Lemma lastLabel_In (f : Field) (fields : list Field) :
  In f fields -> isLabelField f = true ->
  is_Some (lastLabel (stripPrefix (Key f)) fields).
Proof.
  intros Hin Hf. induction fields as [|g fields IH]; [destruct Hin|].
  simpl. destruct Hin as [->|Hin].
  - destruct (lastLabel _ fields); [eauto|].
    rewrite Hf, String.eqb_refl. simpl. eauto.
  - destruct (IH Hin) as [v ->]. eauto.
Qed.

(** ** The label sets during [allLabels], [With] and [Write] *)

Section decorator_heap.

Context {B : Type} `{!Backend.Ops B}.

Lemma allLabels_spec (h : heap) (c : core B) :
  permLabels c ∈ dom h -> tempLabels c ∈ dom h ->
  allLabels h c
  = (<[fresh (dom h) := (h !!! tempLabels c) ∪ (h !!! permLabels c)]> h,
     fresh (dom h)).
Proof.
  intros Hp Ht. unfold allLabels, newLabels.
  pose proof (is_fresh (dom h)) as Hfresh.
  set (a := fresh (dom h)) in *.
  assert (permLabels c ≠ a) as Hpa by (intros E; by rewrite E in Hp).
  assert (tempLabels c ≠ a) as Hta by (intros E; by rewrite E in Ht).
  rewrite (copy_store_union (<[a := ∅]> h))
    by (rewrite dom_insert_L; set_solver).
  rewrite lookup_total_insert_eq, lookup_total_insert_ne by done.
  rewrite (right_id_L ∅ (∪)), insert_insert_eq.
  rewrite copy_store_union by (rewrite dom_insert_L; set_solver).
  rewrite lookup_total_insert_eq, lookup_total_insert_ne by done.
  by rewrite insert_insert_eq.
Qed.

Lemma Write_record_spec (h : heap) (c : core B) (ent : Entry)
    (fields : list Field) :
  wf h c ->
  Write_record h c ent fields
  = (let temp := labelsOf fields ∪ (h !!! tempLabels c) in
     let h2 := <[tempLabels c := temp]>
                 (<[fresh (dom h) := labelsOf fields]> h) in
     (<[tempLabels c := ∅]>
        (<[fresh (dom h2) := temp ∪ (h !!! permLabels c)]> h2),
      foldStack ent,
      withStanzas (config c) ent
        (List.filter notLabelField fields
           ++ [labelsField (fresh (dom h2))]))).
Proof.
  intros (Hp & Ht & Hpt). unfold Write_record.
  rewrite extractLabels_spec.
  pose proof (is_fresh (dom h)) as Hfresh.
  set (l := fresh (dom h)) in *.
  assert (permLabels c ≠ l) as Hpl by (intros E; by rewrite E in Hp).
  assert (tempLabels c ≠ l) as Htl by (intros E; by rewrite E in Ht).
  rewrite copy_store_union by (rewrite dom_insert_L; set_solver).
  rewrite lookup_total_insert_eq, lookup_total_insert_ne by done.
  rewrite allLabels_spec by (rewrite !dom_insert_L; set_solver).
  rewrite lookup_total_insert_eq.
  rewrite lookup_total_insert_ne by done.
  rewrite lookup_total_insert_ne by done.
  reflexivity.
Qed.

End decorator_heap.

(** ** Stanza injection *)

Lemma has_key_app (key : string) (fs gs : list Field) :
  has_key key (fs ++ gs) = has_key key fs || has_key key gs.
Proof.
  induction fs as [|f fs IH]; [reflexivity|].
  simpl. by destruct (String.eqb (Key f) key).
Qed.

Lemma with_key_app (key : string) (fs gs : list Field) :
  with_key key (fs ++ gs) = with_key key fs ++ with_key key gs.
Proof. apply List.filter_app. Qed.

Lemma has_key_with_key (key : string) (fields : list Field) :
  has_key key fields
  = match with_key key fields with [] => false | _ :: _ => true end.
Proof.
  induction fields as [|f fields IH]; [reflexivity|].
  simpl. by destruct (String.eqb (Key f) key).
Qed.

(** A label field carries none of the reserved keys. *)
Lemma with_key_notLabel (key : string) (fields : list Field) :
  strings.HasPrefix key "labels." = false ->
  with_key key (List.filter notLabelField fields) = with_key key fields.
Proof.
  intros Hk. induction fields as [|f fields IH]; [reflexivity|].
  simpl. unfold notLabelField at 1. destruct (isLabelField f) eqn:Hf; simpl.
  - destruct (String.eqb_spec (Key f) key) as [E|_]; [|exact IH].
    unfold isLabelField in Hf. rewrite E in Hf. congruence.
  - by rewrite IH.
Qed.

(** What one guarded append does to the fields of any key. *)
Lemma with_key_guard (k key : string) (new : Field) (fields : list Field) :
  Key new = key ->
  with_key k (if has_key key fields then fields else fields ++ [new])
  = if String.eqb key k
    then match with_key key fields with [] => [new] | user => user end
    else with_key k fields.
Proof.
  intros Hnew. rewrite has_key_with_key.
  destruct (String.eqb_spec key k) as [<-|Hne].
  - destruct (with_key key fields) eqn:Hw; [|done].
    rewrite with_key_app, Hw. unfold with_key. simpl.
    by rewrite Hnew, String.eqb_refl.
  - destruct (with_key key fields); [|done].
    rewrite with_key_app. unfold with_key at 2. simpl. rewrite Hnew.
    destruct (String.eqb_spec key k); [done|]. by rewrite app_nil_r.
Qed.

Lemma with_key_withSourceLocation (k : string) (ent : Entry)
    (fields : list Field) :
  with_key k (withSourceLocation ent fields)
  = if String.eqb sourceKey k
    then match with_key sourceKey fields with
         | [] => if Defined (Caller ent)
                 then [SourceLocation (PC (Caller ent)) (File (Caller ent))
                         (Line (Caller ent)) true]
                 else []
         | user => user
         end
    else with_key k fields.
Proof.
  unfold withSourceLocation. destruct (Defined (Caller ent)); cbn [negb].
  - by apply with_key_guard.
  - destruct (has_key sourceKey fields);
      destruct (String.eqb_spec sourceKey k) as [<-|]; try done;
      by destruct (with_key sourceKey fields).
Qed.

Lemma with_key_withErrorReport (k : string) (ent : Entry)
    (fields : list Field) :
  with_key k (withErrorReport ent fields)
  = if String.eqb contextKey k
    then match with_key contextKey fields with
         | [] => if Defined (Caller ent)
                 then [ErrorReport (PC (Caller ent)) (File (Caller ent))
                         (Line (Caller ent)) true]
                 else []
         | user => user
         end
    else with_key k fields.
Proof.
  unfold withErrorReport. destruct (Defined (Caller ent)); cbn [negb].
  - by apply with_key_guard.
  - destruct (has_key contextKey fields);
      destruct (String.eqb_spec contextKey k) as [<-|]; try done;
      by destruct (with_key contextKey fields).
Qed.

Lemma with_key_withServiceContext (k name version : string)
    (fields : list Field) :
  with_key k (withServiceContext name version fields)
  = if String.eqb serviceContextKey k
    then match with_key serviceContextKey fields with
         | [] => [ServiceContext name version]
         | user => user
         end
    else with_key k fields.
Proof. unfold withServiceContext. by apply with_key_guard. Qed.

Lemma reserved_keys_distinct :
  String.eqb sourceKey serviceContextKey = false
  /\ String.eqb sourceKey contextKey = false
  /\ String.eqb serviceContextKey sourceKey = false
  /\ String.eqb serviceContextKey contextKey = false
  /\ String.eqb contextKey sourceKey = false
  /\ String.eqb contextKey serviceContextKey = false.
Proof. repeat split; reflexivity. Qed.

Ltac stanza_keys :=
  unfold withStanzas;
  destruct reserved_keys_distinct as (? & ? & ? & ? & ? & ?);
  repeat match goal with
         | |- context [if ?b then _ else _] =>
             lazymatch b with
             | context [ServiceName] => destruct b eqn:?
             | context [ReportAllErrors] => destruct b eqn:?
             end
         end;
  cbn [negb] in *; try discriminate;
  repeat first
    [ rewrite with_key_withServiceContext
    | rewrite with_key_withErrorReport
    | rewrite with_key_withSourceLocation
    | rewrite String.eqb_refl
    | match goal with H : String.eqb _ _ = false |- _ => rewrite H end ];
  try reflexivity.

(** The stanzas are appended: the fields of the call stay in front. *)
Lemma withStanzas_appends (config : driverConfig) (ent : Entry)
    (fields : list Field) :
  exists extra,
    withStanzas config ent fields = fields ++ extra
    /\ with_key labelsKey extra = [].
Proof.
  exists (List.skipn (length fields) (withStanzas config ent fields)).
  unfold withStanzas, withSourceLocation, withServiceContext, withErrorReport.
  repeat match goal with
         | |- context [if ?b then _ else _] => destruct b
         end;
    rewrite <- ?app_assoc;
    rewrite ?skipn_all, ?drop_app_length, ?app_nil_r; done.
Qed.

Lemma withStanzas_source (config : driverConfig) (ent : Entry)
    (fields : list Field) :
  with_key sourceKey (withStanzas config ent fields)
  = match with_key sourceKey fields with
    | [] => if Defined (Caller ent)
            then [SourceLocation (PC (Caller ent)) (File (Caller ent))
                    (Line (Caller ent)) true]
            else []
    | user => user
    end.
Proof. stanza_keys. Qed.

Lemma withStanzas_context (config : driverConfig) (ent : Entry)
    (fields : list Field) :
  with_key contextKey (withStanzas config ent fields)
  = if ReportAllErrors config && Level_Enabled ErrorLevel (Level ent)
    then match with_key contextKey fields with
         | [] => if Defined (Caller ent)
                 then [ErrorReport (PC (Caller ent)) (File (Caller ent))
                         (Line (Caller ent)) true]
                 else []
         | user => user
         end
    else with_key contextKey fields.
Proof. stanza_keys. Qed.

Lemma withStanzas_service (config : driverConfig) (ent : Entry)
    (fields : list Field) :
  with_key serviceContextKey (withStanzas config ent fields)
  = match with_key serviceContextKey fields with
    | [] =>
        if negb (String.eqb (ServiceName config) "")
        then [ServiceContext (ServiceName config) (ServiceVersion config)]
        else if ReportAllErrors config
                && Level_Enabled ErrorLevel (Level ent)
             then [ServiceContext "unknown" (ServiceVersion config)]
             else []
    | user => user
    end.
Proof.
  stanza_keys; by destruct (with_key serviceContextKey fields).
Qed.

(** ** The record that [Write] hands to the wrapped core *)

Section emitted_record.

Context {B : Type} `{!Backend.Ops B}.

Lemma Write_record_fields (h : heap) (c : core B) (ent : Entry)
    (fields : list Field) :
  exists all,
    (Write_record h c ent fields).2
    = withStanzas (config c) ent
        (List.filter notLabelField fields ++ [labelsField all]).
Proof.
  unfold Write_record. rewrite extractLabels_spec.
  destruct (allLabels _ c) as [h3 all]. by exists all.
Qed.

Lemma Write_record_entry (h : heap) (c : core B) (ent : Entry)
    (fields : list Field) :
  (Write_record h c ent fields).1.2 = foldStack ent.
Proof.
  unfold Write_record. rewrite extractLabels_spec.
  by destruct (allLabels _ c).
Qed.

Lemma labelsObject_stanzas (h : heap) (config : driverConfig) (ent : Entry)
    (fields : list Field) (all : loc) :
  labelsObject h (withStanzas config ent (fields ++ [labelsField all]))
  = h !! all.
Proof.
  destruct (withStanzas_appends config ent (fields ++ [labelsField all]))
    as (extra & -> & Hextra).
  unfold labelsObject. rewrite !with_key_app, Hextra, app_nil_r.
  change (with_key labelsKey [labelsField all]) with [labelsField all].
  by rewrite last_snoc.
Qed.

Lemma Write_record_labels (h : heap) (c : core B) (ent : Entry)
    (fields : list Field) :
  wf h c ->
  labelsObject (Write_record h c ent fields).1.1
    (Write_record h c ent fields).2
  = Some ((labelsOf fields ∪ (h !!! tempLabels c)) ∪ (h !!! permLabels c)).
Proof.
  intros Hwf. rewrite (Write_record_spec _ _ _ _ Hwf).
  destruct Hwf as (Hp & Ht & Hpt). cbn [fst snd].
  rewrite labelsObject_stanzas.
  set (h2 := <[tempLabels c := _]> (<[fresh (dom h) := _]> h)).
  pose proof (is_fresh (dom h2)) as Hfresh.
  assert (tempLabels c ∈ dom h2) as Ht2
    by (unfold h2; rewrite !dom_insert_L; set_solver).
  rewrite lookup_insert_ne by (intros E; by rewrite E in Ht2).
  by rewrite lookup_insert_eq.
Qed.

End emitted_record.

(** ** Field order *)

Lemma labelPairs_Permutation (fields1 fields2 : list Field) :
  fields1 ≡ₚ fields2 -> labelPairs fields1 ≡ₚ labelPairs fields2.
Proof.
  unfold labelPairs. induction 1 as [|f fs gs _ IH|f g fs|fs gs ks _ IH1 _ IH2].
  - done.
  - simpl. destruct (isLabelField f); simpl; by rewrite ?IH.
  - simpl. destruct (isLabelField f), (isLabelField g); simpl;
      try done. apply perm_swap.
  - by etrans.
Qed.

Lemma labelPairs_name (name : string) (fields : list Field) :
  name ∈ (labelPairs fields).*1 ->
  exists g, In g fields /\ isLabelField g = true
            /\ stripPrefix (Key g) = name.
Proof.
  unfold labelPairs. induction fields as [|f fields IH]; simpl.
  - intros H. by apply elem_of_nil in H.
  - destruct (isLabelField f) eqn:Hf; simpl.
    + rewrite elem_of_cons. intros [->|Hin]; [by exists f; auto|].
      destruct (IH Hin) as (g & ? & ? & ?). exists g; auto.
    + intros Hin. destruct (IH Hin) as (g & ? & ? & ?). exists g; auto.
Qed.

Lemma labelPairs_NoDup (fields : list Field) :
  NoDup (List.map Key (List.filter isLabelField fields)) ->
  NoDup ((labelPairs fields).*1).
Proof.
  induction fields as [|f fields IH]; simpl; [intros _; constructor|].
  unfold labelPairs. simpl. destruct (isLabelField f) eqn:Hf; [|exact IH].
  simpl. rewrite !NoDup_cons. intros [Hnot Hnd]. split; [|by apply IH].
  intros Hin. apply Hnot.
  destruct (labelPairs_name _ _ Hin) as (g & Hg & Hlg & Heq).
  rewrite <- (stripPrefix_inj g f Hlg Hf Heq).
  apply list_elem_of_In, in_map, filter_In. auto.
Qed.

Lemma labelsOf_Permutation (fields1 fields2 : list Field) :
  NoDup (List.map Key (List.filter isLabelField fields1)) ->
  fields1 ≡ₚ fields2 -> labelsOf fields1 = labelsOf fields2.
Proof.
  intros Hnd Hperm. unfold labelsOf. apply list_to_map_proper.
  - rewrite fmap_reverse, reverse_Permutation. by apply labelPairs_NoDup.
  - rewrite !reverse_Permutation. by apply labelPairs_Permutation.
Qed.

(** ** The stack rewrite: the pattern against the line-by-line reading *)

Lemma lines_cons (s : string) : exists l ls, lines s = l :: ls.
Proof.
  induction s as [|a s (l & ls & IH)]; simpl; [by eauto|].
  destruct (Ascii.eqb a regexp.newline); [by eauto|]. rewrite IH. eauto.
Qed.

Lemma unlines_String (a : ascii) (l : string) (ls : list string) :
  unlines (String a l :: ls) = String a (unlines (l :: ls)).
Proof. by destruct ls. Qed.

Lemma unlines_append (x y : string) (ls : list string) :
  unlines ((x +:+ y) :: ls) = x +:+ unlines (y :: ls).
Proof.
  induction x as [|a x IH]; [reflexivity|].
  change (String a x +:+ y) with (String a (x +:+ y)).
  by rewrite unlines_String, IH.
Qed.

Lemma unlines_empty_head (l : string) (ls : list string) :
  unlines (EmptyString :: l :: ls) = String regexp.newline (unlines (l :: ls)).
Proof. reflexivity. Qed.

Lemma append_empty_r (s : string) : s +:+ "" = s.
Proof.
  induction s as [|a s IH]; [reflexivity|].
  change (String a s +:+ "") with (String a (s +:+ "")). by rewrite IH.
Qed.

Lemma nonspace_not_newline (a : ascii) :
  regexp.is_space a = false -> Ascii.eqb a regexp.newline = false.
Proof.
  intros Ha. destruct (Ascii.eqb_spec a regexp.newline) as [->|]; [|done].
  discriminate Ha.
Qed.

Lemma all_nonspace_append (x y : string) :
  all_nonspace (x +:+ y) = all_nonspace x && all_nonspace y.
Proof.
  induction x as [|a x IH]; [reflexivity|].
  change (String a x +:+ y) with (String a (x +:+ y)).
  simpl. by rewrite IH, andb_assoc.
Qed.

Lemma span_S_spec (s : string) :
  forall run rest, regexp.span_S s = (run, rest) ->
    s = run +:+ rest /\ all_nonspace run = true
    /\ match rest with
       | EmptyString => True
       | String b _ => regexp.is_space b = true
       end.
Proof.
  induction s as [|a s IH]; intros run rest; simpl.
  - intros [= <- <-]. done.
  - destruct (regexp.is_space a) eqn:Ha.
    + intros [= <- <-]. by rewrite Ha.
    + destruct (regexp.span_S s) as [run' rest'].
      intros [= <- <-]. destruct (IH _ _ eq_refl) as (-> & Hrun & Hrest).
      simpl. by rewrite Ha, Hrun.
Qed.

Lemma lines_append_nonspace (run rest l0 : string) (ls : list string) :
  all_nonspace run = true -> lines rest = l0 :: ls ->
  lines (run +:+ rest) = (run +:+ l0) :: ls.
Proof.
  intros Hrun Hrest. induction run as [|a run IH]; [done|].
  simpl in Hrun. apply andb_true_iff in Hrun as [Ha Hrun].
  apply negb_true_iff in Ha.
  change (String a run +:+ rest) with (String a (run +:+ rest)).
  simpl. by rewrite (nonspace_not_newline _ Ha), (IH Hrun).
Qed.

Lemma replace_all_S (fuel : nat) (bol : bool) (s : string) :
  regexp.replace_all (S fuel) bol s
  = match regexp.match_here bol s with
    | Some (m, rest) =>
        regexp.expand m +:+ regexp.replace_all fuel false rest
    | None =>
        match s with
        | EmptyString => EmptyString
        | String a s' =>
            String a (regexp.replace_all fuel
                        (Ascii.eqb a regexp.newline) s')
        end
    end.
Proof. reflexivity. Qed.

Lemma markLine_space (b : ascii) (x y : string) :
  regexp.is_space b = true -> markLine (x +:+ String b y) = x +:+ String b y.
Proof.
  intros Hb. unfold markLine, is_token. rewrite all_nonspace_append.
  simpl. rewrite Hb. simpl. by rewrite !andb_false_r.
Qed.

Lemma markLine_token (a : ascii) (run : string) :
  all_nonspace (String a run) = true ->
  markLine (String a run) = String a run +:+ "(...)".
Proof. intros Hrun. unfold markLine, is_token. by rewrite Hrun. Qed.

Lemma append_length (x y : string) :
  String.length (x +:+ y) = String.length x + String.length y.
Proof.
  induction x as [|a x IH]; [reflexivity|].
  change (String a x +:+ y) with (String a (x +:+ y)). simpl. by rewrite IH.
Qed.

Lemma append_length_lt (a : ascii) (run rest : string) :
  String.length rest < String.length (String a run +:+ rest).
Proof. rewrite append_length. simpl. lia. Qed.

(** With enough fuel, the scan from inside a line copies the rest of that
    line and marks the lines after it; the scan from the start of a line
    marks every line. *)
Lemma replace_all_lines (fuel : nat) :
  forall s, String.length s < fuel ->
    (forall l0 ls, lines s = l0 :: ls ->
       regexp.replace_all fuel false s
       = unlines (l0 :: List.map markLine ls))
    /\ regexp.replace_all fuel true s = unlines (List.map markLine (lines s)).
Proof.
  induction fuel as [|fuel IH]; intros s Hlen; [lia|].
  split.
  - intros l0 ls Hlines. rewrite replace_all_S. cbn [regexp.match_here].
    destruct s as [|a s]; simpl in Hlines.
    + by injection Hlines as <- <-.
    + simpl in Hlen. destruct (IH s ltac:(lia)) as [IHin IHbol].
      destruct (lines_cons s) as (l & ls' & Hs).
      destruct (Ascii.eqb_spec a regexp.newline) as [->|Hne].
      * injection Hlines as <- <-. rewrite IHbol, Hs. reflexivity.
      * rewrite Hs in Hlines. injection Hlines as <- <-.
        rewrite unlines_String. f_equal. by apply IHin.
  - rewrite replace_all_S. unfold regexp.match_here.
    destruct (regexp.span_S s) as [run rest] eqn:Hspan.
    destruct (span_S_spec _ _ _ Hspan) as (-> & Hrun & Hrest).
    destruct run as [|a run].
    + change ("" +:+ rest) with rest in *.
      destruct rest as [|b s]; [reflexivity|].
      simpl in Hlen. destruct (IH s ltac:(lia)) as [IHin IHbol].
      destruct (lines_cons s) as (l & ls' & Hs). cbn [lines].
      destruct (Ascii.eqb_spec b regexp.newline) as [->|Hne].
      * rewrite IHbol, Hs. reflexivity.
      * rewrite Hs. cbn [List.map].
        pose proof (markLine_space b "" l Hrest) as Hm.
        change ("" +:+ String b l) with (String b l) in Hm. rewrite Hm.
        rewrite unlines_String. f_equal. by apply IHin.
    + destruct (regexp.at_eol rest) eqn:Heol.
      * pose proof (append_length_lt a run rest) as Hlt.
        destruct (IH rest ltac:(lia)) as [IHin _].
        assert (exists ls, lines rest = EmptyString :: ls) as [ls Hl].
        { destruct rest as [|b r]; [by exists []|]. simpl in Heol.
          simpl. rewrite Heol. eauto. }
        rewrite (IHin _ _ Hl).
        rewrite (lines_append_nonspace _ _ _ _ Hrun Hl), append_empty_r.
        simpl List.map. rewrite (markLine_token _ _ Hrun).
        unfold regexp.expand.
        rewrite <- (append_empty_r (String a run +:+ "(...)")) at 2.
        by rewrite unlines_append.
      * destruct rest as [|b r]; [discriminate|].
        simpl in Heol.
        change (String a run +:+ String b r)
          with (String a (run +:+ String b r)) in *.
        simpl in Hlen.
        destruct (IH (run +:+ String b r) ltac:(lia)) as [IHin _].
        simpl in Hrun. apply andb_true_iff in Hrun as [Ha Hrun].
        apply negb_true_iff in Ha.
        rewrite (nonspace_not_newline _ Ha).
        destruct (lines_cons r) as (l & ls & Hr).
        assert (lines (String b r) = String b l :: ls) as Hbr
            by (simpl; by rewrite Heol, Hr).
        pose proof (lines_append_nonspace _ _ _ _ Hrun Hbr) as Hl.
        rewrite (IHin _ _ Hl). simpl lines.
        rewrite (nonspace_not_newline _ Ha), Hl. simpl List.map.
        change (String a (run +:+ String b l))
          with (String a run +:+ String b l).
        rewrite (markLine_space b _ _ Hrest).
        change (String a run +:+ String b l)
          with (String a (run +:+ String b l)).
        by rewrite unlines_String.
Qed.

Lemma ReplaceAllString_markStack (stack : string) :
  regexp.ReplaceAllString stack = markStack stack.
Proof.
  unfold regexp.ReplaceAllString, markStack.
  by apply (replace_all_lines (S (String.length stack))); lia.
Qed.

(** A shorter run of the greedy [\S+] never ends where [$] holds. *)
Lemma shorter_run_not_at_eol (s x y rest : string) (a : ascii) :
  regexp.span_S s = (x +:+ String a y, rest) ->
  regexp.at_eol (String a y +:+ rest) = false.
Proof.
  intros Hspan. destruct (span_S_spec _ _ _ Hspan) as (_ & Hrun & _).
  rewrite all_nonspace_append in Hrun.
  apply andb_true_iff in Hrun as [_ Hrun]. simpl in Hrun.
  apply andb_true_iff in Hrun as [Ha _]. apply negb_true_iff in Ha.
  exact (nonspace_not_newline _ Ha).
Qed.

Lemma append_assoc (x y z : string) : (x +:+ y) +:+ z = x +:+ (y +:+ z).
Proof.
  induction x as [|a x IH]; [reflexivity|].
  change (String a (x +:+ y) +:+ z = String a (x +:+ (y +:+ z))).
  change (String a ((x +:+ y) +:+ z) = String a (x +:+ (y +:+ z))).
  by rewrite IH.
Qed.

(** ** Derivation and well-formedness *)

Section derivation.

Context {B : Type} `{!Backend.Ops B}.

Lemma With_spec (h : heap) (c : core B) (fields : list Field) :
  permLabels c ∈ dom h ->
  With h c fields
  = (let h1 := <[fresh (dom h) := labelsOf fields]> h in
     let h4 := <[fresh (dom h1) := labelsOf fields ∪ (h !!! permLabels c)]>
                 h1 in
     (<[fresh (dom h4) := ∅]> h4,
      mkCore (Backend.With (Core c) h4 (List.filter notLabelField fields))
        (fresh (dom h1)) (fresh (dom h4)) (config c))).
Proof.
  intros Hp. unfold With, newLabels. rewrite extractLabels_spec.
  assert (permLabels c ≠ fresh (dom h)) as Hpl by auto with labels_heap.
  generalize dependent (fresh (dom h)). intros l Hpl.
  remember (<[l := labelsOf fields]> h) as h1 eqn:Hh1.
  assert (l ∈ dom h1) as Hl1 by (subst h1; auto with labels_heap).
  assert (permLabels c ∈ dom h1) as Hp1 by (subst h1; auto with labels_heap).
  assert (h1 !!! l = labelsOf fields) as Hl
      by (subst h1; by rewrite lookup_total_insert_eq).
  assert (h1 !!! permLabels c = h !!! permLabels c) as Hperm
      by (subst h1; by rewrite lookup_total_insert_ne).
  assert (l ≠ fresh (dom h1)) as Hlp by auto with labels_heap.
  assert (permLabels c ≠ fresh (dom h1)) as Hpp by auto with labels_heap.
  generalize dependent (fresh (dom h1)). intros perm Hlp Hpp.
  cbv zeta.
  rewrite (copy_store_union (<[perm := ∅]> h1)) by auto with labels_heap.
  rewrite lookup_total_insert_eq, lookup_total_insert_ne by done.
  rewrite (right_id_L ∅ (∪)), insert_insert_eq.
  rewrite copy_store_union by auto with labels_heap.
  rewrite lookup_total_insert_eq, lookup_total_insert_ne by done.
  rewrite insert_insert_eq, Hl, Hperm.
  reflexivity.
Qed.

Lemma options_keep_labels (opts : list (core B -> core B)) :
  Forall (fun option => forall c,
            permLabels (option c) = permLabels c
            /\ tempLabels (option c) = tempLabels c) opts ->
  forall c,
    permLabels (fold_left (fun c option => option c) opts c) = permLabels c
    /\ tempLabels (fold_left (fun c option => option c) opts c)
       = tempLabels c.
Proof.
  induction 1 as [|o opts Ho _ IH]; intros c; [done|].
  simpl. destruct (IH (o c)) as [-> ->]. apply Ho.
Qed.

Lemma WrapCore_wf (opts : list (core B -> core B)) (h : heap) (b : B) :
  Forall (fun option => forall c,
            permLabels (option c) = permLabels c
            /\ tempLabels (option c) = tempLabels c) opts ->
  wf (WrapCore opts h b).1 (WrapCore opts h b).2.
Proof.
  intros Hopts. unfold WrapCore, newLabels, wf. cbn [fst snd].
  destruct (options_keep_labels opts Hopts
              (mkCore b (fresh (dom h))
                 (fresh (dom (<[fresh (dom h) := ∅]> h)))
                 (mkConfig false "" ""))) as [-> ->].
  cbn [permLabels tempLabels].
  repeat split; auto with labels_heap.
Qed.

Lemma Write_wf (h : heap) (c : core B) (ent : Entry) (fields : list Field) :
  wf h c -> wf (Write h c ent fields).1.1 (Write h c ent fields).1.2.
Proof.
  intros Hwf. unfold Write. rewrite (Write_record_spec _ _ _ _ Hwf).
  cbv beta iota zeta.
  match goal with
  | |- context [Backend.Write ?b ?h ?e ?fs] =>
      destruct (Backend.Write b h e fs) as [b' err]
  end.
  destruct Hwf as (Hp & Ht & Hpt). unfold wf.
  cbn [fst snd permLabels tempLabels].
  repeat split; auto 6 with labels_heap.
Qed.

End derivation.

(** ** What [Write] and [With] leave alone *)

Section frames.

Context {B : Type} `{!Backend.Ops B}.

(** Of the label sets that exist, [Write] changes the temporary one of
    its decorator only, and leaves that one empty. *)
Lemma Write_record_frame (h : heap) (c : core B) (ent : Entry)
    (fields : list Field) (l : loc) :
  wf h c -> l ∈ dom h ->
  (Write_record h c ent fields).1.1 !! l
  = if decide (l = tempLabels c) then Some ∅ else h !! l.
Proof.
  intros Hwf Hl. rewrite (Write_record_spec _ _ _ _ Hwf).
  destruct Hwf as (Hp & Ht & Hpt). cbn [fst snd].
  destruct (decide (l = tempLabels c)) as [->|Hne].
  - by rewrite lookup_insert_eq.
  - rewrite lookup_insert_ne by done.
    rewrite lookup_insert_ne
      by (apply not_eq_sym; auto with labels_heap).
    rewrite lookup_insert_ne by done.
    rewrite lookup_insert_ne
      by (apply not_eq_sym; auto with labels_heap).
    done.
Qed.

Lemma Write_same_sets (h : heap) (c : core B) (ent : Entry)
    (fields : list Field) :
  (Write h c ent fields).1.1 = (Write_record h c ent fields).1.1
  /\ permLabels (Write h c ent fields).1.2 = permLabels c
  /\ tempLabels (Write h c ent fields).1.2 = tempLabels c
  /\ config (Write h c ent fields).1.2 = config c.
Proof.
  unfold Write.
  destruct (Write_record h c ent fields) as [[h' ent'] fields'].
  by destruct (Backend.Write (Core c) h' ent' fields') as [b err].
Qed.

(** [With] writes to no label set that exists. *)
Lemma With_frame (h : heap) (c : core B) (fields : list Field) (l : loc) :
  permLabels c ∈ dom h -> l ∈ dom h -> (With h c fields).1 !! l = h !! l.
Proof.
  intros Hp Hl. rewrite (With_spec _ _ _ Hp). cbn [fst snd].
  rewrite lookup_insert_ne by (apply not_eq_sym; auto with labels_heap).
  rewrite lookup_insert_ne by (apply not_eq_sym; auto with labels_heap).
  rewrite lookup_insert_ne by (apply not_eq_sym; auto with labels_heap).
  done.
Qed.

(** The child that [With] returns. *)
Lemma With_child (h : heap) (c : core B) (fields : list Field) :
  permLabels c ∈ dom h ->
  (permLabels (With h c fields).2 ∉ dom h)
  /\ (tempLabels (With h c fields).2 ∉ dom h)
  /\ permLabels (With h c fields).2 ≠ tempLabels (With h c fields).2
  /\ permLabels (With h c fields).2 ∈ dom (With h c fields).1
  /\ (With h c fields).1 !! permLabels (With h c fields).2
     = Some (labelsOf fields ∪ (h !!! permLabels c))
  /\ (With h c fields).1 !! tempLabels (With h c fields).2 = Some ∅
  /\ config (With h c fields).2 = config c
  /\ exists h', Core (With h c fields).2
                = Backend.With (Core c) h'
                    (List.filter notLabelField fields).
Proof.
  intros Hp. rewrite (With_spec _ _ _ Hp).
  cbn [fst snd permLabels tempLabels config Core].
  pose proof (is_fresh (dom h)) as Hl.
  generalize dependent (fresh (dom h)). intros l Hl.
  generalize (labelsOf fields ∪ (h !!! permLabels c)). intros m.
  remember (<[l := labelsOf fields]> h) as ha eqn:Hha.
  assert (forall x, x ∈ dom h -> x ∈ dom ha) as Hsub
      by (intros x Hx; subst ha; by apply dom_insert_old).
  clear Hha.
  pose proof (is_fresh (dom ha)) as Hfp.
  generalize dependent (fresh (dom ha)). intros p Hfp.
  remember (<[p := m]> ha) as hb eqn:Hhb.
  assert (forall x, x ∈ dom ha -> x ∈ dom hb) as Hsub2
      by (intros x Hx; subst hb; by apply dom_insert_old).
  assert (p ∈ dom hb) as Hpb by (subst hb; apply dom_insert_new).
  assert (hb !! p = Some m) as Hlook by (subst hb; apply lookup_insert_eq).
  clear Hhb.
  pose proof (is_fresh (dom hb)) as Hft.
  generalize dependent (fresh (dom hb)). intros t Hft.
  assert (p ≠ t) as Hne by (intros ->; contradiction).
  split; [by intros Hin; apply Hfp, Hsub|].
  split; [by intros Hin; apply Hft, Hsub2, Hsub|].
  split; [done|]. split; [by apply dom_insert_old|].
  split; [by rewrite lookup_insert_ne|].
  split; [by rewrite lookup_insert_eq|]. split; [done|]. by eexists.
Qed.

Lemma lookup_total_eq (h1 h2 : heap) (l1 l2 : loc) :
  h1 !! l1 = h2 !! l2 -> h1 !!! l1 = h2 !!! l2.
Proof. intros E. by rewrite !lookup_total_alt, E. Qed.

End frames.

(** Every decorator obtained from [WrapCore] by [With] and [Write] is
    well-formed: the three options keep the label sets, [With] gives a
    well-formed child and keeps its parent well-formed, and so does
    [Write] (see [Write_wf]). *)
Lemma options_keep_sets {B} (report : bool) (name version : string)
    (c : core B) :
  (permLabels (options.ReportAllErrors report c) = permLabels c
   /\ tempLabels (options.ReportAllErrors report c) = tempLabels c)
  /\ (permLabels (options.ServiceName name c) = permLabels c
      /\ tempLabels (options.ServiceName name c) = tempLabels c)
  /\ (permLabels (options.ServiceVersion version c) = permLabels c
      /\ tempLabels (options.ServiceVersion version c) = tempLabels c).
Proof.
  unfold options.ReportAllErrors, options.ServiceName,
    options.ServiceVersion.
  by destruct (config c).
Qed.

Lemma With_wf {B} `{!Backend.Ops B} (h : heap) (c : core B)
    (fields : list Field) :
  wf h c ->
  wf (With h c fields).1 (With h c fields).2 /\ wf (With h c fields).1 c.
Proof.
  intros (Hp & Ht & Hpt).
  destruct (With_child h c fields Hp) as (_ & _ & Hne & Hin & _ & Htemp & _).
  assert (forall l, l ∈ dom h -> l ∈ dom (With h c fields).1) as Hsub.
  { intros l Hl. apply elem_of_dom. rewrite With_frame by done.
    by apply elem_of_dom. }
  split; repeat split; auto.
  apply elem_of_dom. by rewrite Htemp.
Qed.

Lemma labelsOf_no_labels (fields : list Field) :
  List.filter isLabelField fields = [] -> labelsOf fields = ∅.
Proof. intros E. unfold labelsOf, labelPairs. by rewrite E. Qed.

(** * The claims *)

(** C7: label extraction partitions a field sequence.  The label set is a
    new object; it maps a name to the value of the last field whose key is
    the prefix followed by that name, so every field with the prefix is in
    it under its stripped key and is not in the output; the output is the
    sequence of the other fields, in order and as they were; no label set
    that existed before is written, and neither result depends on the
    heap. *)
Theorem extractLabels_partitions (h : heap) (fields : list Field) :
  ((extractLabels h fields).1.2 ∉ dom h)
  /\ (forall l, l ∈ dom h -> (extractLabels h fields).1.1 !! l = h !! l)
  /\ (forall name,
        ((extractLabels h fields).1.1 !!! (extractLabels h fields).1.2)
          !! name = lastLabel name fields)
  /\ (forall f, In f fields -> strings.HasPrefix (Key f) "labels." = true ->
        ~ In f (extractLabels h fields).2
        /\ is_Some (((extractLabels h fields).1.1
                       !!! (extractLabels h fields).1.2)
                      !! stripPrefix (Key f)))
  /\ (extractLabels h fields).2
     = List.filter (fun f => negb (strings.HasPrefix (Key f) "labels."))
         fields
  /\ (forall h2,
        (extractLabels h2 fields).2 = (extractLabels h fields).2
        /\ (extractLabels h2 fields).1.1 !!! (extractLabels h2 fields).1.2
           = (extractLabels h fields).1.1 !!! (extractLabels h fields).1.2).
Proof.
  rewrite extractLabels_spec. cbn [fst snd].
  rewrite lookup_total_insert_eq.
  split; [apply is_fresh|].
  split.
  { intros l Hl. rewrite lookup_insert_ne; [done|].
    apply not_eq_sym. auto with labels_heap. }
  split; [intros name; apply labelsOf_lookup|].
  split.
  { intros f Hin Hf. split.
    - intros Hout. apply filter_In in Hout as [_ Hout].
      unfold notLabelField, isLabelField in Hout. by rewrite Hf in Hout.
    - rewrite labelsOf_lookup. by apply lastLabel_In. }
  split; [reflexivity|].
  intros h2. rewrite extractLabels_spec. cbn [fst snd].
  by rewrite lookup_total_insert_eq.
Qed.

Lemma extractLabels_partitions_witness :
  ~ In (zap.String "labels.a" "1") (extractLabels ∅ sample_fields).2
  /\ is_Some (((extractLabels ∅ sample_fields).1.1
                 !!! (extractLabels ∅ sample_fields).1.2) !! "a").
Proof.
  apply (extractLabels_partitions ∅ sample_fields).
  - simpl. auto.
  - reflexivity.
Defined.

(** C6: the source location is added under a guard.  The fields with the
    source-location key in the record handed to the wrapped core are those
    of the call, as they were, when the call has any; otherwise there is
    the one field built from the entry's caller (marked synthetic) when
    the caller is defined, and none when it is not. *)
Theorem source_location_guarded {B} `{!Backend.Ops B} (h : heap) (c : core B)
    (ent : Entry) (fields : list Field) :
  with_key sourceKey (Write_record h c ent fields).2
  = match with_key sourceKey fields with
    | [] => if Defined (Caller ent)
            then [SourceLocation (PC (Caller ent)) (File (Caller ent))
                    (Line (Caller ent)) true]
            else []
    | user => user
    end.
Proof.
  destruct (Write_record_fields h c ent fields) as [all ->].
  rewrite withStanzas_source, with_key_app.
  rewrite with_key_notLabel by reflexivity.
  change (with_key sourceKey [labelsField all]) with (@nil Field).
  by rewrite app_nil_r.
Qed.

(** C8: [Check] registers the decorator on the checked entry exactly when
    the wrapped core's level predicate accepts the entry's level: then the
    result is [AddCore] of the decorator, whose cores are the former ones
    followed by the decorator; otherwise the checked entry is returned as
    it is. *)
Theorem Check_registers_iff_enabled {B} `{!Backend.Ops B} (c : core B)
    (ent : Entry) (ce : option (CheckedEntry (core B))) :
  Check c ent ce
  = (if Backend.Enabled (Core c) (Level ent) then AddCore ce ent c else ce)
  /\ from_option ce_cores [] (Check c ent ce)
     = from_option ce_cores [] ce
       ++ (if Backend.Enabled (Core c) (Level ent) then [c] else [])
  /\ (Check c ent ce = ce <-> Backend.Enabled (Core c) (Level ent) = false).
Proof.
  unfold Check, Enabled.
  destruct (Backend.Enabled (Core c) (Level ent)) eqn:He.
  - split; [done|]. split; [by destruct ce|].
    split; [|done]. intros Heq. exfalso.
    apply (f_equal (fun x => length (from_option ce_cores [] x))) in Heq.
    destruct ce; simpl in Heq; rewrite ?length_app in Heq; simpl in Heq; lia.
  - split; [done|]. split; [by rewrite app_nil_r|done].
Qed.

(** C9: the decorator has no error of its own.  What [Write] returns is
    what the wrapped core's [Write] returns for the record handed to it,
    and what [Sync] returns is what the wrapped core's [Sync] returns; the
    wrapped core is called once and its new state is kept. *)
Theorem errors_come_from_backend {B} `{!Backend.Ops B} (h : heap) (c : core B)
    (ent : Entry) (fields : list Field) :
  (Write h c ent fields).2
  = (Backend.Write (Core c) (Write_record h c ent fields).1.1
       (Write_record h c ent fields).1.2 (Write_record h c ent fields).2).2
  /\ Core (Write h c ent fields).1.2
     = (Backend.Write (Core c) (Write_record h c ent fields).1.1
          (Write_record h c ent fields).1.2 (Write_record h c ent fields).2).1
  /\ (Sync c).2 = (Backend.Sync (Core c)).2
  /\ Core (Sync c).1 = (Backend.Sync (Core c)).1.
Proof.
  unfold Write, Sync.
  destruct (Write_record h c ent fields) as [[h' ent'] fields'].
  cbn [fst snd].
  destruct (Backend.Write (Core c) h' ent' fields') as [b err].
  by destruct (Backend.Sync (Core c)) as [b' err'].
Qed.

(** C1: the label object of the record that [Write] hands to the wrapped
    core is the union of the permanent set with the temporary set, the
    latter with the labels of the call's fields merged in; a name is looked
    up among the labels of the call, then in the temporary set, then in the
    permanent set.  When the label fields of the call have distinct keys,
    the object is the same for every order of the fields. *)
Theorem Write_merges_labels {B} `{!Backend.Ops B} (h : heap) (c : core B)
    (ent : Entry) (fields : list Field) :
  wf h c ->
  labelsObject (Write_record h c ent fields).1.1
    (Write_record h c ent fields).2
  = Some ((labelsOf fields ∪ (h !!! tempLabels c)) ∪ (h !!! permLabels c))
  /\ (forall name,
        ((labelsOf fields ∪ (h !!! tempLabels c)) ∪ (h !!! permLabels c))
          !! name
        = match lastLabel name fields with
          | Some v => Some v
          | None => match (h !!! tempLabels c) !! name with
                    | Some v => Some v
                    | None => (h !!! permLabels c) !! name
                    end
          end)
  /\ (forall fields2,
        fields ≡ₚ fields2 ->
        NoDup (List.map Key (List.filter isLabelField fields)) ->
        labelsObject (Write_record h c ent fields2).1.1
          (Write_record h c ent fields2).2
        = labelsObject (Write_record h c ent fields).1.1
            (Write_record h c ent fields).2).
Proof.
  intros Hwf. split; [by apply Write_record_labels|]. split.
  - intros name. rewrite !lookup_union, labelsOf_lookup.
    destruct (lastLabel name fields); [by rewrite !union_Some_l|].
    rewrite (left_id_L None union).
    by destruct ((h !!! tempLabels c) !! name), ((h !!! permLabels c) !! name).
  - intros fields2 Hperm Hnd.
    rewrite !Write_record_labels by done.
    by rewrite (labelsOf_Permutation _ _ Hnd Hperm).
Qed.

Lemma Write_merges_labels_witness :
  wf sample_child.1 sample_child.2
  /\ labelsObject
       (Write_record sample_child.1 sample_child.2 sample_entry
          sample_fields).1.1
       (Write_record sample_child.1 sample_child.2 sample_entry
          sample_fields).2
     = Some ((labelsOf sample_fields
                ∪ (sample_child.1 !!! tempLabels sample_child.2))
               ∪ (sample_child.1 !!! permLabels sample_child.2)).
Proof.
  assert (wf sample_child.1 sample_child.2) as Hwf
      by (apply (bool_decide_unpack _); vm_compute; exact I).
  split; [exact Hwf|].
  exact (proj1 (Write_merges_labels sample_child.1 sample_child.2
                  sample_entry sample_fields Hwf)).
Defined.

(** C2: temporary labels do not leak.  After a [Write] the temporary set
    of the decorator is empty and its permanent set is as before; the label
    object of the next [Write] is the union of the labels of that call with
    the permanent set, whatever the first call carried -- with no label
    field in the second call it is the permanent set -- and the label
    object of the first call has every permanent name too. *)
Theorem temporary_labels_do_not_leak {B} `{!Backend.Ops B} (h : heap)
    (c : core B) (ent1 ent2 : Entry) (fields1 fields2 : list Field) :
  wf h c ->
  let h1 := (Write h c ent1 fields1).1.1 in
  let c1 := (Write h c ent1 fields1).1.2 in
  let r1 := Write_record h c ent1 fields1 in
  let r2 := Write_record h1 c1 ent2 fields2 in
  h1 !! tempLabels c1 = Some ∅
  /\ permLabels c1 = permLabels c
  /\ h1 !! permLabels c1 = h !! permLabels c
  /\ labelsObject r2.1.1 r2.2
     = Some (labelsOf fields2 ∪ (h !!! permLabels c))
  /\ (List.filter isLabelField fields2 = [] ->
      labelsObject r2.1.1 r2.2 = Some (h !!! permLabels c))
  /\ (exists m1,
        labelsObject r1.1.1 r1.2 = Some m1
        /\ dom (h !!! permLabels c) ⊆ dom m1
        /\ forall name,
             lastLabel name fields1 = None ->
             (h !!! tempLabels c) !! name = None ->
             m1 !! name = (h !!! permLabels c) !! name).
Proof.
  intros Hwf h1 c1 r1 r2.
  destruct (Write_same_sets h c ent1 fields1) as (Hh1 & Hp1 & Ht1 & _).
  pose proof (Write_wf h c ent1 fields1 Hwf) as Hwf1.
  fold h1 c1 in Hh1, Hp1, Ht1, Hwf1.
  destruct Hwf as (Hp & Ht & Hpt).
  assert (h1 !! tempLabels c1 = Some ∅) as Htemp.
  { rewrite Hh1, Ht1, Write_record_frame by done. by rewrite decide_True. }
  assert (h1 !! permLabels c1 = h !! permLabels c) as Hperm.
  { rewrite Hh1, Hp1, Write_record_frame by done. by rewrite decide_False. }
  assert (labelsObject r2.1.1 r2.2
          = Some (labelsOf fields2 ∪ (h !!! permLabels c))) as Hsecond.
  { unfold r2. rewrite Write_record_labels by done.
    rewrite (lookup_total_correct _ _ _ Htemp), (right_id_L ∅ (∪)).
    by rewrite (lookup_total_eq _ _ _ _ Hperm). }
  repeat split; try done.
  - intros Hnone. rewrite Hsecond, (labelsOf_no_labels _ Hnone).
    by rewrite (left_id_L ∅ (∪)).
  - eexists. split; [unfold r1; by apply Write_record_labels|]. split.
    + rewrite !dom_union_L. set_solver.
    + intros name Hl Hn. rewrite !lookup_union, labelsOf_lookup, Hl, Hn.
      by destruct ((h !!! permLabels c) !! name).
Qed.

Lemma temporary_labels_do_not_leak_witness :
  wf sample_child.1 sample_child.2
  /\ labelsObject
       (Write_record
          (Write sample_child.1 sample_child.2 sample_entry
             [zap.String "labels.a" "1"]).1.1
          (Write sample_child.1 sample_child.2 sample_entry
             [zap.String "labels.a" "1"]).1.2
          sample_entry []).1.1
       (Write_record
          (Write sample_child.1 sample_child.2 sample_entry
             [zap.String "labels.a" "1"]).1.1
          (Write sample_child.1 sample_child.2 sample_entry
             [zap.String "labels.a" "1"]).1.2
          sample_entry []).2
     = Some (sample_child.1 !!! permLabels sample_child.2).
Proof.
  assert (wf sample_child.1 sample_child.2) as Hwf
      by (apply (bool_decide_unpack _); vm_compute; exact I).
  split; [exact Hwf|].
  apply (temporary_labels_do_not_leak sample_child.1 sample_child.2
           sample_entry sample_entry [zap.String "labels.a" "1"] [] Hwf).
  reflexivity.
Defined.

(** The run of C2 evaluated: the first record carries a and p, the second
    carries p alone. *)
Example two_writes :
  let h := sample_child.1 in
  let c := sample_child.2 in
  let w1 := Write h c sample_entry [zap.String "labels.a" "1"] in
  let r1 := Write_record h c sample_entry [zap.String "labels.a" "1"] in
  let r2 := Write_record w1.1.1 w1.1.2 sample_entry [] in
  labelsObject r1.1.1 r1.2 = Some {[ "a" := "1"; "p" := "q" ]}
  /\ labelsObject r2.1.1 r2.2 = Some {[ "p" := "q" ]}.
Proof. split; vm_compute; reflexivity. Qed.

(** C3: [With] copies.  It writes to no label set that exists, so the
    parent's sets are as before; the child's permanent set is a new object
    holding the parent's permanent labels overridden by the labels of the
    passed fields; its temporary set is another new object, empty; the
    configuration is the parent's and the wrapped core is the one derived
    with the non-label fields.  A second derivation from the parent leaves
    the first child's permanent set, and the parent's, as they were. *)
Theorem With_copies_permanent_labels {B} `{!Backend.Ops B} (h : heap)
    (c : core B) (fields fields2 : list Field) :
  wf h c ->
  let h1 := (With h c fields).1 in
  let child := (With h c fields).2 in
  let h2 := (With h1 c fields2).1 in
  let child2 := (With h1 c fields2).2 in
  (forall l, l ∈ dom h -> h1 !! l = h !! l)
  /\ (permLabels child ∉ dom h) /\ (tempLabels child ∉ dom h)
  /\ permLabels child ≠ tempLabels child
  /\ h1 !! permLabels child = Some (labelsOf fields ∪ (h !!! permLabels c))
  /\ h1 !! tempLabels child = Some ∅
  /\ config child = config c
  /\ (exists h', Core child
                 = Backend.With (Core c) h' (List.filter notLabelField fields))
  /\ h2 !! permLabels child = h1 !! permLabels child
  /\ h2 !! permLabels c = h !! permLabels c
  /\ permLabels child2 ≠ permLabels child
  /\ h2 !! permLabels child2
     = Some (labelsOf fields2 ∪ (h !!! permLabels c)).
Proof.
  intros (Hp & Ht & Hpt) h1 child h2 child2.
  assert (forall l, l ∈ dom h -> h1 !! l = h !! l) as Hframe
      by (intros l Hl; by apply With_frame).
  assert (permLabels c ∈ dom h1) as Hp1.
  { apply elem_of_dom. rewrite (Hframe _ Hp). by apply elem_of_dom. }
  assert (h1 !!! permLabels c = h !!! permLabels c) as Hsame
      by (apply lookup_total_eq; auto).
  destruct (With_child h c fields Hp)
    as (Hc1 & Hc2 & Hc3 & Hc4 & Hc5 & Hc6 & Hc7 & Hc8).
  destruct (With_child h1 c fields2 Hp1)
    as (Hd1 & _ & _ & _ & Hd5 & _).
  fold h1 child in Hc1, Hc2, Hc3, Hc4, Hc5, Hc6, Hc7, Hc8.
  fold h2 child2 in Hd1, Hd5.
  repeat split; try done.
  - by apply With_frame.
  - unfold h2. by rewrite (With_frame _ _ _ _ Hp1 Hp1), (Hframe _ Hp).
  - intros E. apply Hd1. by rewrite E.
  - by rewrite Hd5, Hsame.
Qed.

Lemma With_copies_permanent_labels_witness :
  wf sample_root.1 sample_root.2
  /\ (With (With sample_root.1 sample_root.2
              [zap.String "labels.p" "q"]).1 sample_root.2
        [zap.String "labels.r" "s"]).1
       !! permLabels (With sample_root.1 sample_root.2
                        [zap.String "labels.p" "q"]).2
     = (With sample_root.1 sample_root.2 [zap.String "labels.p" "q"]).1
         !! permLabels (With sample_root.1 sample_root.2
                          [zap.String "labels.p" "q"]).2.
Proof.
  assert (wf sample_root.1 sample_root.2) as Hwf
      by (apply (bool_decide_unpack _); vm_compute; exact I).
  split; [exact Hwf|].
  exact (proj1 (proj2 (proj2 (proj2 (proj2 (proj2 (proj2 (proj2 (proj2
           (With_copies_permanent_labels sample_root.1 sample_root.2
              [zap.String "labels.p" "q"] [zap.String "labels.r" "s"]
              Hwf)))))))))).
Defined.

(** The run of C3 evaluated: the second derivation gives its child the
    label r = s, and the first child still has p = q alone. *)
Example two_children :
  let first := With sample_root.1 sample_root.2 [zap.String "labels.p" "q"] in
  let second := With first.1 sample_root.2 [zap.String "labels.r" "s"] in
  first.1 !! permLabels first.2 = Some {[ "p" := "q" ]}
  /\ second.1 !! permLabels first.2 = Some {[ "p" := "q" ]}
  /\ second.1 !! permLabels second.2 = Some {[ "r" := "s" ]}
  /\ second.1 !! permLabels sample_root.2 = Some ∅.
Proof. repeat split; vm_compute; reflexivity. Qed.

(** C4: the stack is folded into the message.  For an entry with a stack,
    the entry handed to the wrapped core has no stack, and its message is
    the message, two newlines, the header line, a newline and the stack in
    which every line that is one non-whitespace token has the call marker
    appended; the other members are as they were.  For the stack of the
    two lines main.foo and main.bar and the message boom, the message
    becomes the five lines shown. *)
Theorem Write_folds_stack {B} `{!Backend.Ops B} (h : heap) (c : core B)
    (ent : Entry) (fields : list Field) :
  Stack ent <> "" ->
  Stack (Write_record h c ent fields).1.2 = ""
  /\ Message (Write_record h c ent fields).1.2
     = Message ent +:+ nl +:+ nl +:+ "goroutine 1 [running]:" +:+ nl
         +:+ markStack (Stack ent)
  /\ Level (Write_record h c ent fields).1.2 = Level ent
  /\ Caller (Write_record h c ent fields).1.2 = Caller ent
  /\ (forall lvl time name caller,
        Message (Write_record h c
                   (mkEntry lvl time name "boom" caller
                      ("main.foo" +:+ nl +:+ "main.bar")) fields).1.2
        = "boom" +:+ nl +:+ nl +:+ "goroutine 1 [running]:" +:+ nl
            +:+ "main.foo(...)" +:+ nl +:+ "main.bar(...)").
Proof.
  intros Hstack. rewrite !Write_record_entry. unfold foldStack.
  destruct (String.eqb_spec (Stack ent) "") as [E|_]; [done|].
  cbn [negb Stack Message Level Caller].
  rewrite ReplaceAllString_markStack. unfold stackHeader.
  rewrite append_assoc.
  repeat split. intros lvl time name caller.
  rewrite Write_record_entry. reflexivity.
Qed.

Lemma Write_folds_stack_witness :
  Stack sample_entry <> ""
  /\ Stack (Write_record sample_child.1 sample_child.2 sample_entry
              sample_fields).1.2 = "".
Proof.
  assert (Stack sample_entry <> "") as Hstack by (vm_compute; discriminate).
  split; [exact Hstack|].
  exact (proj1 (Write_folds_stack sample_child.1 sample_child.2 sample_entry
                  sample_fields Hstack)).
Defined.

(** C5, as stated, fails: with all errors reported, no service name and an
    entry at error level whose caller is not defined, the record has no
    error-context field. *)
Lemma error_context_absent_without_caller :
  ReportAllErrors (config sample_root.2) = true
  /\ ServiceName (config sample_root.2) = ""
  /\ Level_Enabled ErrorLevel (Level sample_entry_no_caller) = true
  /\ with_key contextKey
       (Write_record sample_root.1 sample_root.2 sample_entry_no_caller
          []).2 = []
  /\ length (with_key contextKey
               (Write_record sample_root.1 sample_root.2
                  sample_entry_no_caller []).2) <> 1.
Proof.
  repeat split; try (vm_compute; reflexivity). vm_compute. discriminate.
Qed.

(** C5, amended: with all errors reported, no service name and an entry at
    or above error level, the error-context fields of the record are those
    of the call when it has any, else the one built from the caller when
    the caller is defined, else none; the service-context fields are those
    of the call when it has any, else the one field with the fallback name
    unknown.  So a call without fields of these two keys, for an entry
    with a defined caller, gives exactly one of each. *)
Theorem error_report_fallback {B} `{!Backend.Ops B} (h : heap) (c : core B)
    (ent : Entry) (fields : list Field) :
  ReportAllErrors (config c) = true ->
  ServiceName (config c) = "" ->
  Level_Enabled ErrorLevel (Level ent) = true ->
  with_key contextKey (Write_record h c ent fields).2
  = match with_key contextKey fields with
    | [] => if Defined (Caller ent)
            then [ErrorReport (PC (Caller ent)) (File (Caller ent))
                    (Line (Caller ent)) true]
            else []
    | user => user
    end
  /\ with_key serviceContextKey (Write_record h c ent fields).2
     = match with_key serviceContextKey fields with
       | [] => [ServiceContext "unknown" (ServiceVersion (config c))]
       | user => user
       end.
Proof.
  intros Hreport Hname Hlevel.
  destruct (Write_record_fields h c ent fields) as [all ->].
  rewrite withStanzas_context, withStanzas_service, !with_key_app.
  rewrite !with_key_notLabel by reflexivity.
  change (with_key contextKey [labelsField all]) with (@nil Field).
  change (with_key serviceContextKey [labelsField all]) with (@nil Field).
  rewrite !app_nil_r, Hreport, Hname, Hlevel. done.
Qed.

Lemma error_report_fallback_witness :
  ReportAllErrors (config sample_root.2) = true
  /\ ServiceName (config sample_root.2) = ""
  /\ Level_Enabled ErrorLevel (Level sample_entry) = true
  /\ with_key serviceContextKey
       (Write_record sample_root.1 sample_root.2 sample_entry
          sample_fields).2
     = match with_key serviceContextKey sample_fields with
       | [] => [ServiceContext "unknown"
                  (ServiceVersion (config sample_root.2))]
       | user => user
       end.
Proof.
  assert (ReportAllErrors (config sample_root.2) = true) as H1
      by reflexivity.
  assert (ServiceName (config sample_root.2) = "") as H2 by reflexivity.
  assert (Level_Enabled ErrorLevel (Level sample_entry) = true) as H3
      by reflexivity.
  split; [exact H1|]. split; [exact H2|]. split; [exact H3|].
  exact (proj2 (error_report_fallback sample_root.1 sample_root.2
                  sample_entry sample_fields H1 H2 H3)).
Defined.

(** ** Label values *)

Lemma lastLabel_None (name : string) (fields : list Field) :
  (forall g, In g fields -> isLabelField g = true ->
             stripPrefix (Key g) <> name) ->
  lastLabel name fields = None.
Proof.
  induction fields as [|g fields IH]; intros Hno; [reflexivity|].
  simpl. rewrite IH by (intros g' Hin; apply Hno; by right).
  destruct (isLabelField g) eqn:Hg; [|reflexivity].
  destruct (String.eqb_spec (stripPrefix (Key g)) name) as [E|_]; [|done].
  exfalso. apply (Hno g); auto. by left.
Qed.

Lemma lastLabel_last (pre post : list Field) (f : Field) :
  isLabelField f = true ->
  (forall g, In g post -> isLabelField g = true -> Key g <> Key f) ->
  lastLabel (stripPrefix (Key f)) (pre ++ f :: post) = Some (String_ f).
Proof.
  intros Hf Hpost.
  assert (lastLabel (stripPrefix (Key f)) (f :: post) = Some (String_ f))
    as Hbase.
  { simpl. rewrite lastLabel_None.
    - by rewrite Hf, String.eqb_refl.
    - intros g Hin Hg E. apply (Hpost g Hin Hg).
      by apply stripPrefix_inj. }
  induction pre as [|p pre IH]; [exact Hbase|].
  simpl. by rewrite IH.
Qed.

(** *** Whatever the classifier accepts *)

Section classifier_facts.

Variable isLabel : Field -> bool.

Lemma labelsOf_by_cons_other (f : Field) (fields : list Field) :
  isLabel f = false ->
  labelsOf_by isLabel (f :: fields) = labelsOf_by isLabel fields.
Proof. intros Hf. unfold labelsOf_by, labelPairs_by. simpl. by rewrite Hf. Qed.

Lemma labelsOf_by_cons_label (f : Field) (fields : list Field)
    (m : gmap string string) :
  isLabel f = true ->
  labelsOf_by isLabel (f :: fields) ∪ m
  = labelsOf_by isLabel fields ∪ <[labelName f := String_ f]> m.
Proof.
  intros Hf. unfold labelsOf_by, labelPairs_by. simpl. rewrite Hf. simpl.
  rewrite reverse_cons, list_to_map_app. simpl.
  rewrite insert_empty, <- (assoc_L (∪)).
  by rewrite <- insert_union_singleton_l.
Qed.

Lemma labelsOf_by_none (fields : list Field) :
  List.filter isLabel fields = [] -> labelsOf_by isLabel fields = ∅.
Proof. intros E. unfold labelsOf_by, labelPairs_by. by rewrite E. Qed.

Lemma extractLabels_loop_by_spec (fields : list Field) :
  forall (h : heap) (lbls : loc) (out : list Field),
    extractLabels_loop_by isLabel h lbls out fields
    = (match List.filter isLabel fields with
       | [] => h
       | _ => <[lbls := labelsOf_by isLabel fields ∪ (h !!! lbls)]> h
       end,
       out ++ List.filter (fun f => negb (isLabel f)) fields).
Proof.
  induction fields as [|f fields IH]; intros h lbls out; simpl.
  - by rewrite app_nil_r.
  - destruct (isLabel f) eqn:Hf; simpl.
    + rewrite IH. f_equal.
      unfold store_set. rewrite lookup_total_insert_eq.
      rewrite (labelsOf_by_cons_label _ _ _ Hf). fold (labelName f).
      destruct (List.filter isLabel fields) eqn:Hl.
      * rewrite (labelsOf_by_none _ Hl). by rewrite (left_id_L ∅ (∪)).
      * by rewrite insert_insert_eq.
    + rewrite IH. f_equal.
      * by rewrite (labelsOf_by_cons_other _ _ Hf).
      * by rewrite <- app_assoc.
Qed.

Lemma extractLabels_by_spec (h : heap) (fields : list Field) :
  extractLabels_by isLabel h fields
  = (<[fresh (dom h) := labelsOf_by isLabel fields]> h, fresh (dom h),
     List.filter (fun f => negb (isLabel f)) fields).
Proof.
  unfold extractLabels_by, newLabels. rewrite extractLabels_loop_by_spec.
  rewrite lookup_total_insert_eq, (right_id_L ∅ (∪)). simpl.
  destruct (List.filter isLabel fields) eqn:Hl;
    [|by rewrite insert_insert_eq].
  by rewrite (labelsOf_by_none _ Hl).
Qed.

(** Every value of the label set is the [String] member of a field that
    the classifier accepts. *)
Lemma labelsOf_by_source (fields : list Field) (name v : string) :
  labelsOf_by isLabel fields !! name = Some v ->
  exists f, In f fields /\ isLabel f = true
            /\ labelName f = name /\ String_ f = v.
Proof.
  unfold labelsOf_by, labelPairs_by. intros Hl.
  apply elem_of_list_to_map_2 in Hl. rewrite elem_of_reverse in Hl.
  apply list_elem_of_In, in_map_iff in Hl as (f & Hf & Hin).
  apply filter_In in Hin as [Hin Hacc]. injection Hf as <- <-.
  by exists f.
Qed.

Lemma labelsOf_by_last (pre post : list Field) (f : Field) :
  isLabel f = true ->
  (forall g, In g post -> isLabel g = true -> labelName g <> labelName f) ->
  labelsOf_by isLabel (pre ++ f :: post) !! labelName f = Some (String_ f).
Proof.
  intros Hf Hpost.
  assert (labelsOf_by isLabel post !! labelName f = None) as Hnone.
  { destruct (labelsOf_by isLabel post !! labelName f) as [v|] eqn:E;
      [|done].
    destruct (labelsOf_by_source _ _ _ E) as (g & Hin & Hg & Hname & _).
    by destruct (Hpost g Hin Hg). }
  induction pre as [|p pre IH]; simpl.
  - pose proof (labelsOf_by_cons_label f post ∅ Hf) as E.
    rewrite (right_id_L ∅ (∪)) in E. rewrite E, lookup_union, Hnone.
    by rewrite (left_id_L None union), lookup_insert_eq.
  - destruct (isLabel p) eqn:Hp.
    + pose proof (labelsOf_by_cons_label p (pre ++ f :: post) ∅ Hp) as E.
      rewrite (right_id_L ∅ (∪)) in E. rewrite E, lookup_union, IH.
      by rewrite union_Some_l.
    + by rewrite (labelsOf_by_cons_other _ _ Hp).
Qed.

Context {B : Type} `{!Backend.Ops B}.

Lemma Write_record_by_fields (h : heap) (c : core B) (ent : Entry)
    (fields : list Field) :
  exists all,
    (Write_record_by isLabel h c ent fields).2
    = withStanzas (config c) ent
        (List.filter (fun f => negb (isLabel f)) fields
           ++ [labelsField all]).
Proof.
  unfold Write_record_by. rewrite extractLabels_by_spec.
  destruct (allLabels _ c) as [h3 all]. by exists all.
Qed.

Lemma Write_record_by_labels (h : heap) (c : core B) (ent : Entry)
    (fields : list Field) :
  wf h c ->
  labelsObject (Write_record_by isLabel h c ent fields).1.1
    (Write_record_by isLabel h c ent fields).2
  = Some ((labelsOf_by isLabel fields ∪ (h !!! tempLabels c))
            ∪ (h !!! permLabels c)).
Proof.
  intros (Hp & Ht & Hpt). unfold Write_record_by.
  rewrite extractLabels_by_spec.
  assert (permLabels c ≠ fresh (dom h)) as Hpl by auto with labels_heap.
  assert (tempLabels c ≠ fresh (dom h)) as Htl by auto with labels_heap.
  rewrite copy_store_union by auto with labels_heap.
  rewrite lookup_total_insert_eq, lookup_total_insert_ne by done.
  rewrite allLabels_spec by auto with labels_heap.
  rewrite lookup_total_insert_eq.
  rewrite lookup_total_insert_ne by done.
  rewrite lookup_total_insert_ne by done.
  cbn [fst snd]. unfold mergeLabelFields, reset.
  rewrite labelsObject_stanzas.
  rewrite lookup_insert_ne
    by (apply allocated_not_fresh; auto with labels_heap).
  by rewrite lookup_insert_eq.
Qed.

Lemma With_by_permanent (h : heap) (c : core B) (fields : list Field) :
  permLabels c ∈ dom h ->
  (With_by isLabel h c fields).1 !! permLabels (With_by isLabel h c fields).2
  = Some (labelsOf_by isLabel fields ∪ (h !!! permLabels c)).
Proof.
  intros Hp. unfold With_by, newLabels. rewrite extractLabels_by_spec.
  assert (permLabels c ≠ fresh (dom h)) as Hpl by auto with labels_heap.
  generalize dependent (fresh (dom h)). intros l Hpl.
  remember (<[l := labelsOf_by isLabel fields]> h) as h1 eqn:Hh1.
  assert (l ∈ dom h1) as Hl1 by (subst h1; auto with labels_heap).
  assert (permLabels c ∈ dom h1) as Hp1 by (subst h1; auto with labels_heap).
  assert (h1 !!! l = labelsOf_by isLabel fields) as Hl
      by (subst h1; by rewrite lookup_total_insert_eq).
  assert (h1 !!! permLabels c = h !!! permLabels c) as Hperm
      by (subst h1; by rewrite lookup_total_insert_ne).
  assert (l ≠ fresh (dom h1)) as Hlp by auto with labels_heap.
  assert (permLabels c ≠ fresh (dom h1)) as Hpp by auto with labels_heap.
  generalize dependent (fresh (dom h1)). intros perm Hlp Hpp.
  cbv zeta.
  rewrite (copy_store_union (<[perm := ∅]> h1)) by auto with labels_heap.
  rewrite lookup_total_insert_eq, lookup_total_insert_ne by done.
  rewrite (right_id_L ∅ (∪)), insert_insert_eq.
  rewrite copy_store_union by auto with labels_heap.
  rewrite lookup_total_insert_eq, lookup_total_insert_ne by done.
  rewrite insert_insert_eq, Hl, Hperm. cbn [fst snd permLabels].
  rewrite lookup_insert_ne
    by (apply not_eq_sym, allocated_not_fresh, dom_insert_new).
  by rewrite lookup_insert_eq.
Qed.

End classifier_facts.

(** With the classifier of the specification these are the functions
    above. *)
Lemma by_isLabelField {B} `{!Backend.Ops B} (h : heap) (c : core B)
    (ent : Entry) (fields : list Field) :
  extractLabels_by isLabelField h fields = extractLabels h fields
  /\ With_by isLabelField h c fields = With h c fields
  /\ Write_record_by isLabelField h c ent fields
     = Write_record h c ent fields.
Proof.
  assert (forall fs h' lbls out,
             extractLabels_loop_by isLabelField h' lbls out fs
             = extractLabels_loop h' lbls out fs) as Hloop.
  { induction fs as [|f fs IH]; intros h' lbls out; [done|].
    simpl. by destruct (isLabelField f); simpl; rewrite IH. }
  assert (forall h', extractLabels_by isLabelField h' fields
                     = extractLabels h' fields) as Hext.
  { intros h'. unfold extractLabels_by, extractLabels.
    destruct (newLabels h') as [lbls h1]. by rewrite Hloop. }
  split; [done|].
  unfold With_by, With, Write_record_by, Write_record. by rewrite !Hext.
Qed.

(** For every classifier, the label object of a call with the one field
    [zap.Int64 "labels.n" 5] has nothing under n but the empty string. *)
Lemma integer_label_never_stored (isLabel : Field -> bool) (m : gmap string string)
    (v : string) :
  labelsObject
    (Write_record_by isLabel sample_root.1 sample_root.2 sample_entry
       [sample_integer_label]).1.1
    (Write_record_by isLabel sample_root.1 sample_root.2 sample_entry
       [sample_integer_label]).2 = Some m ->
  m !! "n" = Some v -> v = "".
Proof.
  assert (wf sample_root.1 sample_root.2) as Hwf
      by (apply (bool_decide_unpack _); vm_compute; exact I).
  rewrite (Write_record_by_labels isLabel _ _ _ _ Hwf).
  assert (sample_root.1 !!! tempLabels sample_root.2 = ∅) as ->
      by (vm_compute; reflexivity).
  assert (sample_root.1 !!! permLabels sample_root.2 = ∅) as ->
      by (vm_compute; reflexivity).
  rewrite !(right_id_L ∅ (∪)). intros [= <-] Hv.
  destruct (labelsOf_by_source _ _ _ _ Hv) as (g & [<-|[]] & _ & _ & <-).
  reflexivity.
Qed.

(** C10, as stated, fails: the field [zap.Int64 "labels.n" 5] has the
    label prefix and the value 5, in its [Integer] member.  With the
    classifier of the specification it is a label field, and line 211
    stores its [String] member, the empty string, for [Write] and for
    [With].  With a classifier that accepts string fields only it is no
    label field: nothing is stored and the field is handed on; after a
    string field of the same key, the label keeps that field's value.
    Either way the label set does not get the value 5. *)
Lemma integer_label_value_is_dropped :
  strings.HasPrefix (Key sample_integer_label) "labels." = true
  /\ fieldValue sample_integer_label = VInteger 5
  /\ labelsObject
       (Write_record_by isLabelField sample_root.1 sample_root.2
          sample_entry [sample_integer_label]).1.1
       (Write_record_by isLabelField sample_root.1 sample_root.2
          sample_entry [sample_integer_label]).2
     = Some {[ "n" := "" ]}
  /\ (With_by isLabelField sample_root.1 sample_root.2
        [sample_integer_label]).1
       !! permLabels (With_by isLabelField sample_root.1 sample_root.2
                        [sample_integer_label]).2
     = Some {[ "n" := "" ]}
  /\ labelsObject
       (Write_record_by isLabelField_typed sample_root.1 sample_root.2
          sample_entry [sample_integer_label]).1.1
       (Write_record_by isLabelField_typed sample_root.1 sample_root.2
          sample_entry [sample_integer_label]).2
     = Some ∅
  /\ In sample_integer_label
       (Write_record_by isLabelField_typed sample_root.1 sample_root.2
          sample_entry [sample_integer_label]).2
  /\ (With_by isLabelField_typed sample_root.1 sample_root.2
        [sample_integer_label]).1
       !! permLabels (With_by isLabelField_typed sample_root.1
                        sample_root.2 [sample_integer_label]).2
     = Some ∅
  /\ labelsObject
       (Write_record_by isLabelField_typed sample_root.1 sample_root.2
          sample_entry
          [zap.String "labels.n" "7"; sample_integer_label]).1.1
       (Write_record_by isLabelField_typed sample_root.1 sample_root.2
          sample_entry
          [zap.String "labels.n" "7"; sample_integer_label]).2
     = Some {[ "n" := "7" ]}
  /\ VString "" <> fieldValue sample_integer_label
  /\ VString "7" <> fieldValue sample_integer_label.
Proof.
  repeat split; try (vm_compute; reflexivity); try discriminate.
  vm_compute. auto.
Qed.

(** C10, amended: label values are not validated, and what is stored is
    the [String] member.  Whatever the classifier accepts: for a field
    that it accepts and that no later accepted field of the same name
    follows, the value under its name in the label object of [Write], and
    in the permanent set of the child of [With], is the field's [String]
    member as supplied, whatever the field's type and other members are;
    that is the field's value when the field is of string type; and every
    value in the label set of a call is the [String] member of a field of
    the call that the classifier accepts. *)
Theorem label_value_is_String_member {B} `{!Backend.Ops B}
    (isLabel : Field -> bool) (h : heap) (c : core B) (ent : Entry)
    (pre post : list Field) (f : Field) :
  wf h c ->
  isLabel f = true ->
  (forall g, In g post -> isLabel g = true -> labelName g <> labelName f) ->
  (exists m,
     labelsObject (Write_record_by isLabel h c ent (pre ++ f :: post)).1.1
       (Write_record_by isLabel h c ent (pre ++ f :: post)).2 = Some m
     /\ m !! labelName f = Some (String_ f))
  /\ (exists m,
        (With_by isLabel h c (pre ++ f :: post)).1
          !! permLabels (With_by isLabel h c (pre ++ f :: post)).2 = Some m
        /\ m !! labelName f = Some (String_ f))
  /\ (Type_ f = StringType -> fieldValue f = VString (String_ f))
  /\ (forall name v,
        ((extractLabels_by isLabel h (pre ++ f :: post)).1.1
           !!! (extractLabels_by isLabel h (pre ++ f :: post)).1.2)
          !! name = Some v ->
        exists g, In g (pre ++ f :: post) /\ isLabel g = true
                  /\ labelName g = name /\ String_ g = v).
Proof.
  intros Hwf Hf Hpost.
  pose proof (labelsOf_by_last isLabel pre post f Hf Hpost) as Hlast.
  split; [|split; [|split]].
  - eexists. split; [by apply Write_record_by_labels|].
    by rewrite !lookup_union, Hlast, !union_Some_l.
  - destruct Hwf as (Hp & _ & _).
    eexists. split; [by apply With_by_permanent|].
    by rewrite lookup_union, Hlast, union_Some_l.
  - intros Htype. unfold fieldValue. by rewrite Htype.
  - intros name v. rewrite extractLabels_by_spec. cbn [fst snd].
    rewrite lookup_total_insert_eq. apply labelsOf_by_source.
Qed.

Lemma label_value_is_String_member_witness :
  wf sample_root.1 sample_root.2
  /\ isLabelField_typed (zap.String "labels.n" "8") = true
  /\ exists m,
       labelsObject
         (Write_record_by isLabelField_typed sample_root.1 sample_root.2
            sample_entry
            ([zap.String "labels.n" "7"] ++ zap.String "labels.n" "8"
               :: [sample_integer_label; zap.String "user" "u7"])).1.1
         (Write_record_by isLabelField_typed sample_root.1 sample_root.2
            sample_entry
            ([zap.String "labels.n" "7"] ++ zap.String "labels.n" "8"
               :: [sample_integer_label; zap.String "user" "u7"])).2
       = Some m
       /\ m !! labelName (zap.String "labels.n" "8")
          = Some (String_ (zap.String "labels.n" "8")).
Proof.
  assert (wf sample_root.1 sample_root.2) as Hwf
      by (apply (bool_decide_unpack _); vm_compute; exact I).
  assert (isLabelField_typed (zap.String "labels.n" "8") = true) as Hf
      by reflexivity.
  assert (forall g,
             In g [sample_integer_label; zap.String "user" "u7"] ->
             isLabelField_typed g = true ->
             labelName g <> labelName (zap.String "labels.n" "8")) as Hpost.
  { intros g [<-|[<-|[]]] Hg; discriminate Hg. }
  split; [exact Hwf|]. split; [exact Hf|].
  exact (proj1 (label_value_is_String_member isLabelField_typed
                  sample_root.1 sample_root.2 sample_entry
                  [zap.String "labels.n" "7"]
                  [sample_integer_label; zap.String "user" "u7"]
                  (zap.String "labels.n" "8") Hwf Hf Hpost)).
Defined.

(** * Further properties of core.go *)

(** ** [withLabels] *)

Lemma withLabels_loop_extract (fields : list Field) :
  forall (h : heap) (lbls : loc) (out : list Field),
    withLabels_loop h lbls out fields = extractLabels_loop h lbls out fields.
Proof.
  induction fields as [|f fields IH]; intros h lbls out; [reflexivity|].
  simpl. by destruct (isLabelField f); simpl; rewrite IH.
Qed.

(** X1: [withLabels] keeps the fields that are no label fields, in order
    and as they were, and appends one labels field; that field points to a
    new label set, which holds the labels of the label fields (the last
    one wins for a name); no label set that existed is written. *)
Theorem withLabels_appends_labels_field (h : heap) (fields : list Field) :
  (withLabels h fields).2
  = List.filter notLabelField fields ++ [labelsField (fresh (dom h))]
  /\ (fresh (dom h) ∉ dom h)
  /\ (withLabels h fields).1 !! fresh (dom h) = Some (labelsOf fields)
  /\ (forall name,
        labelsOf fields !! name = lastLabel name fields)
  /\ (forall l, l ∈ dom h -> (withLabels h fields).1 !! l = h !! l)
  /\ labelsObject (withLabels h fields).1 (withLabels h fields).2
     = Some (labelsOf fields).
Proof.
  assert (withLabels h fields
          = (<[fresh (dom h) := labelsOf fields]> h,
             List.filter notLabelField fields
               ++ [labelsField (fresh (dom h))])) as ->.
  { pose proof (extractLabels_spec h fields) as Hspec.
    unfold withLabels, extractLabels in *.
    destruct (newLabels h) as [lbls h1] eqn:Hnew.
    rewrite withLabels_loop_extract.
    destruct (extractLabels_loop h1 lbls [] fields) as [h2 out].
    by injection Hspec as -> -> ->. }
  cbn [fst snd]. split; [done|]. split; [apply is_fresh|].
  split; [by rewrite lookup_insert_eq|].
  split; [intros name; apply labelsOf_lookup|]. split.
  - intros l Hl. rewrite lookup_insert_ne; [done|].
    apply not_eq_sym. auto with labels_heap.
  - unfold labelsObject. rewrite with_key_app.
    change (with_key labelsKey [labelsField (fresh (dom h))])
      with [labelsField (fresh (dom h))].
    rewrite last_snoc. cbn [Interface labelsField zap.Object].
    by rewrite lookup_insert_eq.
Qed.

(** ** [WrapCore] and the options *)

Lemma option_keeps_core {B} (o : core B -> core B) (c : core B) :
  zapdriver_option o ->
  Core (o c) = Core c /\ permLabels (o c) = permLabels c
  /\ tempLabels (o c) = tempLabels c.
Proof.
  intros [[r ->]|[[n ->]|[v ->]]];
    unfold options.ReportAllErrors, options.ServiceName,
      options.ServiceVersion; by destruct (config c).
Qed.

Lemma options_keep_core {B} (opts : list (core B -> core B)) :
  Forall zapdriver_option opts ->
  forall c,
    Core (fold_left (fun c option => option c) opts c) = Core c
    /\ permLabels (fold_left (fun c option => option c) opts c)
       = permLabels c
    /\ tempLabels (fold_left (fun c option => option c) opts c)
       = tempLabels c.
Proof.
  induction 1 as [|o opts Ho _ IH]; intros c; [done|].
  simpl. destruct (IH (o c)) as (-> & -> & ->).
  by apply option_keeps_core.
Qed.

(** X2: [WrapCore] with options of core.go wraps the given core and gives
    the decorator two label sets that are new, distinct and empty; no
    label set that existed is written. *)
Theorem WrapCore_new_label_sets {B} (opts : list (core B -> core B))
    (h : heap) (b : B) :
  Forall zapdriver_option opts ->
  Core (WrapCore opts h b).2 = b
  /\ (permLabels (WrapCore opts h b).2 ∉ dom h)
  /\ (tempLabels (WrapCore opts h b).2 ∉ dom h)
  /\ permLabels (WrapCore opts h b).2 ≠ tempLabels (WrapCore opts h b).2
  /\ (WrapCore opts h b).1 !! permLabels (WrapCore opts h b).2 = Some ∅
  /\ (WrapCore opts h b).1 !! tempLabels (WrapCore opts h b).2 = Some ∅
  /\ (forall l, l ∈ dom h -> (WrapCore opts h b).1 !! l = h !! l).
Proof.
  intros Hopts. unfold WrapCore, newLabels. cbn [fst snd].
  destruct (options_keep_core opts Hopts
              (mkCore b (fresh (dom h))
                 (fresh (dom (<[fresh (dom h) := ∅]> h)))
                 (mkConfig false "" ""))) as (-> & -> & ->).
  cbn [Core permLabels tempLabels].
  pose proof (is_fresh (dom h)) as Hp.
  generalize dependent (fresh (dom h)). intros p Hp.
  pose proof (is_fresh (dom (<[p := ∅]> h))) as Ht.
  generalize dependent (fresh (dom (<[p := ∅]> h))). intros t Ht.
  assert (p ≠ t) as Hne by (intros ->; apply Ht, dom_insert_new).
  split; [done|]. split; [done|].
  split; [by intros Hin; apply Ht, dom_insert_old|]. split; [done|].
  split; [by rewrite lookup_insert_ne, lookup_insert_eq|].
  split; [by rewrite lookup_insert_eq|].
  intros l Hl.
  assert (t ≠ l) as Htl by (intros ->; by apply Ht, dom_insert_old).
  assert (p ≠ l) as Hpl by (by intros ->).
  by rewrite !lookup_insert_ne.
Qed.

Lemma WrapCore_new_label_sets_witness :
  Forall zapdriver_option
    [@options.ReportAllErrors recorder true; options.ServiceName "api"]
  /\ Core (WrapCore [options.ReportAllErrors true; options.ServiceName "api"]
             ∅ sample_backend).2 = sample_backend.
Proof.
  assert (Forall zapdriver_option
            [@options.ReportAllErrors recorder true;
             options.ServiceName "api"]) as Hopts.
  { constructor; [left; by exists true|].
    constructor; [right; left; by exists "api"|]. constructor. }
  split; [exact Hopts|].
  exact (proj1 (WrapCore_new_label_sets _ ∅ sample_backend Hopts)).
Defined.

Lemma options_keep_member {B A} (get : driverConfig -> A)
    (opts : list (core B -> core B)) :
  Forall (fun o => forall c, get (config (o c)) = get (config c)) opts ->
  forall c,
    get (config (fold_left (fun c option => option c) opts c))
    = get (config c).
Proof.
  induction 1 as [|o opts Ho _ IH]; intros c; [done|].
  simpl. by rewrite IH.
Qed.

Lemma WrapCore_config {B} (opts : list (core B -> core B)) (h : heap)
    (b : B) :
  config (WrapCore opts h b).2
  = config (fold_left (fun c option => option c) opts
              (mkCore b (fresh (dom h))
                 (fresh (dom (<[fresh (dom h) := ∅]> h)))
                 (mkConfig false "" ""))).
Proof. reflexivity. Qed.

Lemma option_members {B} (c : core B) (report : bool)
    (name version : string) :
  config (options.ReportAllErrors report c)
  = mkConfig report (ServiceName (config c)) (ServiceVersion (config c))
  /\ config (options.ServiceName name c)
     = mkConfig (ReportAllErrors (config c)) name
         (ServiceVersion (config c))
  /\ config (options.ServiceVersion version c)
     = mkConfig (ReportAllErrors (config c)) (ServiceName (config c))
         version.
Proof.
  unfold options.ReportAllErrors, options.ServiceName,
    options.ServiceVersion.
  by destruct (config c).
Qed.

(** X3: the configuration that [WrapCore] builds.  Without options it is
    the zero configuration (no error reporting, no service name, no
    version).  Each member has the value of the last option of core.go
    that sets it, whatever options for the other members come after it,
    and its zero value when no option sets it. *)
Theorem last_option_wins {B} (opts1 opts2 : list (core B -> core B))
    (h : heap) (b : B) :
  config (WrapCore [] h b).2 = mkConfig false "" ""
  /\ (forall report,
        Forall (fun o => sets_ServiceName o \/ sets_ServiceVersion o) opts2 ->
        ReportAllErrors
          (config (WrapCore (opts1 ++ options.ReportAllErrors report :: opts2)
                     h b).2) = report)
  /\ (forall name,
        Forall (fun o => sets_ReportAllErrors o \/ sets_ServiceVersion o)
          opts2 ->
        ServiceName
          (config (WrapCore (opts1 ++ options.ServiceName name :: opts2)
                     h b).2) = name)
  /\ (forall version,
        Forall (fun o => sets_ReportAllErrors o \/ sets_ServiceName o)
          opts2 ->
        ServiceVersion
          (config (WrapCore (opts1 ++ options.ServiceVersion version :: opts2)
                     h b).2) = version)
  /\ (Forall (fun o => sets_ServiceName o \/ sets_ServiceVersion o) opts1 ->
      ReportAllErrors (config (WrapCore opts1 h b).2) = false)
  /\ (Forall (fun o => sets_ReportAllErrors o \/ sets_ServiceVersion o)
        opts1 ->
      ServiceName (config (WrapCore opts1 h b).2) = "")
  /\ (Forall (fun o => sets_ReportAllErrors o \/ sets_ServiceName o) opts1 ->
      ServiceVersion (config (WrapCore opts1 h b).2) = "").
Proof.
  assert (forall opts : list (core B -> core B),
             Forall (fun o => sets_ServiceName o \/ sets_ServiceVersion o)
               opts ->
             Forall (fun o => forall c,
                       ReportAllErrors (config (o c))
                       = ReportAllErrors (config c)) opts) as Hreport.
  { intros opts Hf. eapply Forall_impl; [exact Hf|]. intros o [[n ->]|[v ->]] c.
    - by rewrite (proj1 (proj2 (option_members c false n ""))).
    - by rewrite (proj2 (proj2 (option_members c false "" v))). }
  assert (forall opts : list (core B -> core B),
             Forall (fun o => sets_ReportAllErrors o \/ sets_ServiceVersion o)
               opts ->
             Forall (fun o => forall c,
                       ServiceName (config (o c))
                       = ServiceName (config c)) opts) as Hname.
  { intros opts Hf. eapply Forall_impl; [exact Hf|]. intros o [[r ->]|[v ->]] c.
    - by rewrite (proj1 (option_members c r "" "")).
    - by rewrite (proj2 (proj2 (option_members c false "" v))). }
  assert (forall opts : list (core B -> core B),
             Forall (fun o => sets_ReportAllErrors o \/ sets_ServiceName o)
               opts ->
             Forall (fun o => forall c,
                       ServiceVersion (config (o c))
                       = ServiceVersion (config c)) opts) as Hversion.
  { intros opts Hf. eapply Forall_impl; [exact Hf|]. intros o [[r ->]|[n ->]] c.
    - by rewrite (proj1 (option_members c r "" "")).
    - by rewrite (proj1 (proj2 (option_members c false n ""))). }
  split; [reflexivity|].
  repeat split.
  - intros report Hrest. rewrite WrapCore_config, fold_left_app. simpl.
    rewrite (options_keep_member ReportAllErrors opts2 (Hreport _ Hrest)).
    by rewrite (proj1 (option_members _ report "" "")).
  - intros name Hrest. rewrite WrapCore_config, fold_left_app. simpl.
    rewrite (options_keep_member ServiceName opts2 (Hname _ Hrest)).
    by rewrite (proj1 (proj2 (option_members _ false name ""))).
  - intros version Hrest. rewrite WrapCore_config, fold_left_app. simpl.
    rewrite (options_keep_member ServiceVersion opts2 (Hversion _ Hrest)).
    by rewrite (proj2 (proj2 (option_members _ false "" version))).
  - intros Hall. rewrite WrapCore_config.
    by rewrite (options_keep_member ReportAllErrors opts1 (Hreport _ Hall)).
  - intros Hall. rewrite WrapCore_config.
    by rewrite (options_keep_member ServiceName opts1 (Hname _ Hall)).
  - intros Hall. rewrite WrapCore_config.
    by rewrite (options_keep_member ServiceVersion opts1 (Hversion _ Hall)).
Qed.

Lemma last_option_wins_witness :
  ServiceName
    (config (WrapCore ([options.ServiceName "old"]
                         ++ options.ServiceName "api"
                         :: [options.ReportAllErrors true;
                             options.ServiceVersion "v2"])
               ∅ sample_backend).2) = "api".
Proof.
  apply (proj1 (proj2 (proj2 (last_option_wins
           [options.ServiceName "old"]
           [options.ReportAllErrors true; options.ServiceVersion "v2"]
           ∅ sample_backend)))).
  constructor; [left; by exists true|].
  constructor; [right; by exists "v2"|]. constructor.
Defined.

(** ** The stanzas that [Write] adds *)

(** X4: the service context of a record.  The service-context fields that
    [Write] hands to the wrapped core are those of the call when it has
    any; otherwise the one field with the configured name and version when
    a service name is configured; otherwise the one field with the name
    unknown when all errors are reported and the entry is at or above
    error level; otherwise none. *)
Theorem service_context_of_record {B} `{!Backend.Ops B} (h : heap)
    (c : core B) (ent : Entry) (fields : list Field) :
  with_key serviceContextKey (Write_record h c ent fields).2
  = match with_key serviceContextKey fields with
    | [] =>
        if negb (String.eqb (ServiceName (config c)) "")
        then [ServiceContext (ServiceName (config c))
                (ServiceVersion (config c))]
        else if ReportAllErrors (config c)
                && Level_Enabled ErrorLevel (Level ent)
             then [ServiceContext "unknown" (ServiceVersion (config c))]
             else []
    | user => user
    end.
Proof.
  destruct (Write_record_fields h c ent fields) as [all ->].
  rewrite withStanzas_service, with_key_app.
  rewrite with_key_notLabel by reflexivity.
  change (with_key serviceContextKey [labelsField all]) with (@nil Field).
  by rewrite app_nil_r.
Qed.

(** X5: the error context of a record.  When all errors are reported and
    the entry is at or above error level, the error-context fields are
    those of the call when it has any, else the one built from the caller
    when the caller is defined, else none.  In every other case [Write]
    adds no error-context field: they are those of the call. *)
Theorem error_context_of_record {B} `{!Backend.Ops B} (h : heap)
    (c : core B) (ent : Entry) (fields : list Field) :
  with_key contextKey (Write_record h c ent fields).2
  = if ReportAllErrors (config c) && Level_Enabled ErrorLevel (Level ent)
    then match with_key contextKey fields with
         | [] => if Defined (Caller ent)
                 then [ErrorReport (PC (Caller ent)) (File (Caller ent))
                         (Line (Caller ent)) true]
                 else []
         | user => user
         end
    else with_key contextKey fields.
Proof.
  destruct (Write_record_fields h c ent fields) as [all ->].
  rewrite withStanzas_context, !with_key_app.
  rewrite !with_key_notLabel by reflexivity.
  change (with_key contextKey [labelsField all]) with (@nil Field).
  by rewrite !app_nil_r.
Qed.

Lemma stanzaKey_not_label (key : string) :
  stanzaKey key = true -> strings.HasPrefix key "labels." = false.
Proof.
  unfold stanzaKey. intros Hk.
  apply orb_true_iff in Hk as [Hk|Hk];
    [apply orb_true_iff in Hk as [Hk|Hk]|];
    apply String.eqb_eq in Hk; by subst key.
Qed.

Lemma withStanzas_extra (config : driverConfig) (ent : Entry)
    (fields : list Field) :
  exists extra,
    withStanzas config ent fields = fields ++ extra
    /\ length extra <= 3
    /\ Forall (fun f => stanzaKey (Key f) = true) extra.
Proof.
  exists (List.skipn (length fields) (withStanzas config ent fields)).
  unfold withStanzas, withSourceLocation, withServiceContext, withErrorReport.
  destruct (String.eqb (ServiceName config) ""); cbn [negb];
    repeat match goal with
           | |- context [if ?b then _ else _] => destruct b
           end;
    rewrite <- ?app_assoc;
    rewrite ?skipn_all, ?drop_app_length, ?app_nil_r;
    (split; [done|split; [simpl; lia|repeat constructor]]).
Qed.

(** X6: what [Write] does to the fields of a call.  The record starts
    with the fields of the call that are no label fields, in their order
    and as they were; then comes the labels field; then at most three
    fields, each with the key of a stanza.  No field of the call that is
    not a label field is dropped, changed or moved. *)
Theorem Write_keeps_other_fields {B} `{!Backend.Ops B} (h : heap)
    (c : core B) (ent : Entry) (fields : list Field) :
  exists all extra,
    (Write_record h c ent fields).2
    = List.filter notLabelField fields ++ labelsField all :: extra
    /\ length extra <= 3
    /\ Forall (fun f => stanzaKey (Key f) = true) extra
    /\ length (Write_record h c ent fields).2 <= length fields + 4.
Proof.
  destruct (Write_record_fields h c ent fields) as [all ->].
  destruct (withStanzas_extra (config c) ent
              (List.filter notLabelField fields ++ [labelsField all]))
    as (extra & -> & Hlen & Hkeys).
  exists all, extra. rewrite <- app_assoc. split; [done|].
  split; [done|]. split; [done|].
  rewrite !length_app. simpl.
  pose proof (filter_length_le notLabelField fields). lia.
Qed.

(** X7: no field that the classifier accepts reaches the wrapped core.
    For every classifier that accepts only fields whose key has the label
    prefix (as the prefix test does, and as one that also tests the
    field's type does), it rejects every field of the record that [Write]
    hands over. *)
Theorem Write_emits_no_label_field {B} `{!Backend.Ops B}
    (isLabel : Field -> bool) (h : heap) (c : core B) (ent : Entry)
    (fields : list Field) :
  (forall f, isLabel f = true ->
             strings.HasPrefix (Key f) "labels." = true) ->
  Forall (fun f => isLabel f = false)
    (Write_record_by isLabel h c ent fields).2.
Proof.
  intros Hprefix.
  assert (forall f, strings.HasPrefix (Key f) "labels." = false ->
                    isLabel f = false) as Hrej.
  { intros f Hf. destruct (isLabel f) eqn:E; [|done].
    apply Hprefix in E. congruence. }
  destruct (Write_record_by_fields isLabel h c ent fields) as [all ->].
  destruct (withStanzas_extra (config c) ent
              (List.filter (fun f => negb (isLabel f)) fields
                 ++ [labelsField all]))
    as (extra & -> & _ & Hkeys).
  rewrite !Forall_app. repeat split.
  - apply Forall_forall. intros f Hf.
    apply list_elem_of_In, filter_In in Hf as [_ Hf].
    by apply negb_true_iff in Hf.
  - constructor; [|constructor]. by apply Hrej.
  - eapply Forall_impl; [exact Hkeys|]. intros f Hf.
    by apply Hrej, stanzaKey_not_label.
Qed.

Lemma Write_emits_no_label_field_witness :
  (forall f, isLabelField_typed f = true ->
             strings.HasPrefix (Key f) "labels." = true)
  /\ Forall (fun f => isLabelField_typed f = false)
       (Write_record_by isLabelField_typed sample_root.1 sample_root.2
          sample_entry (sample_integer_label :: sample_fields)).2.
Proof.
  assert (forall f, isLabelField_typed f = true ->
                    strings.HasPrefix (Key f) "labels." = true) as Hprefix.
  { intros f Hf. unfold isLabelField_typed in Hf.
    by apply andb_true_iff in Hf as [Hf _]. }
  split; [exact Hprefix|].
  exact (Write_emits_no_label_field isLabelField_typed sample_root.1
           sample_root.2 sample_entry (sample_integer_label :: sample_fields)
           Hprefix).
Defined.

Lemma withSourceLocation_noop (ent : Entry) (fields : list Field) :
  has_key sourceKey fields = true \/ Defined (Caller ent) = false ->
  withSourceLocation ent fields = fields.
Proof.
  unfold withSourceLocation. intros [-> | ->]; [done|].
  by destruct (has_key sourceKey fields).
Qed.

Lemma withErrorReport_noop (ent : Entry) (fields : list Field) :
  has_key contextKey fields = true \/ Defined (Caller ent) = false ->
  withErrorReport ent fields = fields.
Proof.
  unfold withErrorReport. intros [-> | ->]; [done|].
  by destruct (has_key contextKey fields).
Qed.

Lemma withServiceContext_noop (name version : string) (fields : list Field) :
  has_key serviceContextKey fields = true ->
  withServiceContext name version fields = fields.
Proof. unfold withServiceContext. by intros ->. Qed.

(** X8: the stanzas are added once.  Running the stanza steps of [Write]
    on fields that went through them already, for the same entry and
    configuration, changes nothing: a stanza that is there is not added
    again. *)
Theorem withStanzas_idempotent (config : driverConfig) (ent : Entry)
    (fields : list Field) :
  withStanzas config ent (withStanzas config ent fields)
  = withStanzas config ent fields
  /\ withSourceLocation ent (withSourceLocation ent fields)
     = withSourceLocation ent fields
  /\ withErrorReport ent (withErrorReport ent fields)
     = withErrorReport ent fields
  /\ (forall name version name' version',
        withServiceContext name' version'
          (withServiceContext name version fields)
        = withServiceContext name version fields).
Proof.
  split; [|split; [|split]].
  - remember (withStanzas config ent fields) as R eqn:HR.
    assert (has_key sourceKey R = true \/ Defined (Caller ent) = false)
      as Hsrc.
    { rewrite has_key_with_key, HR, withStanzas_source.
      destruct (with_key sourceKey fields), (Defined (Caller ent)); auto. }
    assert (String.eqb (ServiceName config) "" = false ->
            has_key serviceContextKey R = true) as Hsvc.
    { intros Hn. rewrite has_key_with_key, HR, withStanzas_service, Hn.
      by destruct (with_key serviceContextKey fields). }
    assert (ReportAllErrors config && Level_Enabled ErrorLevel (Level ent)
            = true ->
            (has_key contextKey R = true \/ Defined (Caller ent) = false)
            /\ has_key serviceContextKey R = true) as Hctx.
    { intros Hr. rewrite !has_key_with_key, HR.
      rewrite withStanzas_context, withStanzas_service, Hr. split.
      - destruct (with_key contextKey fields), (Defined (Caller ent)); auto.
      - by destruct (with_key serviceContextKey fields),
             (String.eqb (ServiceName config) ""). }
    unfold withStanzas. rewrite (withSourceLocation_noop _ _ Hsrc).
    destruct (String.eqb (ServiceName config) "") eqn:Hn; cbn [negb].
    + destruct (ReportAllErrors config
                && Level_Enabled ErrorLevel (Level ent)) eqn:Hr; [|done].
      destruct (Hctx eq_refl) as [Hc Hs].
      by rewrite (withErrorReport_noop _ _ Hc), withServiceContext_noop.
    + rewrite (withServiceContext_noop _ _ _ (Hsvc eq_refl)).
      destruct (ReportAllErrors config
                && Level_Enabled ErrorLevel (Level ent)) eqn:Hr; [|done].
      destruct (Hctx eq_refl) as [Hc _].
      by rewrite (withErrorReport_noop _ _ Hc).
  - apply withSourceLocation_noop. rewrite has_key_with_key.
    rewrite with_key_withSourceLocation, String.eqb_refl.
    destruct (with_key sourceKey fields), (Defined (Caller ent)); auto.
  - apply withErrorReport_noop. rewrite has_key_with_key.
    rewrite with_key_withErrorReport, String.eqb_refl.
    destruct (with_key contextKey fields), (Defined (Caller ent)); auto.
  - intros name version name' version'.
    apply withServiceContext_noop. rewrite has_key_with_key.
    rewrite with_key_withServiceContext, String.eqb_refl.
    by destruct (with_key serviceContextKey fields).
Qed.

Lemma withSourceLocation_adds (ent : Entry) (fields : list Field) :
  has_key sourceKey fields = false -> Defined (Caller ent) = true ->
  withSourceLocation ent fields
  = fields ++ [SourceLocation (PC (Caller ent)) (File (Caller ent))
                 (Line (Caller ent)) true].
Proof. unfold withSourceLocation. by intros -> ->. Qed.

Lemma withErrorReport_adds (ent : Entry) (fields : list Field) :
  has_key contextKey fields = false -> Defined (Caller ent) = true ->
  withErrorReport ent fields
  = fields ++ [ErrorReport (PC (Caller ent)) (File (Caller ent))
                 (Line (Caller ent)) true].
Proof. unfold withErrorReport. by intros -> ->. Qed.

Lemma withServiceContext_adds (name version : string)
    (fields : list Field) :
  has_key serviceContextKey fields = false ->
  withServiceContext name version fields
  = fields ++ [ServiceContext name version].
Proof. unfold withServiceContext. by intros ->. Qed.

Lemma has_key_notLabel (key : string) (fields : list Field) :
  strings.HasPrefix key "labels." = false ->
  with_key key fields = [] ->
  has_key key (List.filter notLabelField fields) = false.
Proof.
  intros Hk Hnone. by rewrite has_key_with_key, with_key_notLabel, Hnone.
Qed.

(** X9: the record of an ordinary call.  When the call has no field with
    a stanza key and the entry's caller is defined, the record is: the
    fields of the call that are no label fields, the labels field, the
    source location; then, with a service name configured, the service
    context and, for a reported error, the error report; without a service
    name, for a reported error, the error report and then the service
    context with the name unknown. *)
Theorem Write_record_of_plain_call {B} `{!Backend.Ops B} (h : heap)
    (c : core B) (ent : Entry) (fields : list Field) :
  with_key sourceKey fields = [] ->
  with_key serviceContextKey fields = [] ->
  with_key contextKey fields = [] ->
  Defined (Caller ent) = true ->
  exists all,
    (Write_record h c ent fields).2
    = List.filter notLabelField fields
      ++ [labelsField all;
          SourceLocation (PC (Caller ent)) (File (Caller ent))
            (Line (Caller ent)) true]
      ++ (if String.eqb (ServiceName (config c)) "" then []
          else [ServiceContext (ServiceName (config c))
                  (ServiceVersion (config c))])
      ++ (if ReportAllErrors (config c)
             && Level_Enabled ErrorLevel (Level ent)
          then ErrorReport (PC (Caller ent)) (File (Caller ent))
                 (Line (Caller ent)) true
               :: (if String.eqb (ServiceName (config c)) ""
                   then [ServiceContext "unknown"
                           (ServiceVersion (config c))]
                   else [])
          else []).
Proof.
  intros Hsrc Hsvc Hctx Hdef.
  destruct (Write_record_fields h c ent fields) as [all ->]. exists all.
  pose proof (has_key_notLabel sourceKey fields eq_refl Hsrc) as H1.
  pose proof (has_key_notLabel serviceContextKey fields eq_refl Hsvc) as H2.
  pose proof (has_key_notLabel contextKey fields eq_refl Hctx) as H3.
  unfold withStanzas.
  rewrite withSourceLocation_adds
    by (try done; rewrite !has_key_app, ?H1; reflexivity).
  destruct (String.eqb (ServiceName (config c)) ""); cbn [negb];
    destruct (ReportAllErrors (config c)
              && Level_Enabled ErrorLevel (Level ent));
    repeat first
      [ rewrite withServiceContext_adds
          by (rewrite !has_key_app, ?H2; reflexivity)
      | rewrite withErrorReport_adds
          by (try done; rewrite !has_key_app, ?H3; reflexivity) ];
    rewrite <- ?app_assoc; reflexivity.
Qed.

Lemma Write_record_of_plain_call_witness :
  with_key sourceKey sample_fields = []
  /\ with_key serviceContextKey sample_fields = []
  /\ with_key contextKey sample_fields = []
  /\ Defined (Caller sample_entry) = true
  /\ exists all,
       (Write_record sample_root.1 sample_root.2 sample_entry
          sample_fields).2
       = List.filter notLabelField sample_fields
         ++ [labelsField all;
             SourceLocation (PC (Caller sample_entry))
               (File (Caller sample_entry)) (Line (Caller sample_entry))
               true]
         ++ (if String.eqb (ServiceName (config sample_root.2)) "" then []
             else [ServiceContext (ServiceName (config sample_root.2))
                     (ServiceVersion (config sample_root.2))])
         ++ (if ReportAllErrors (config sample_root.2)
                && Level_Enabled ErrorLevel (Level sample_entry)
             then ErrorReport (PC (Caller sample_entry))
                    (File (Caller sample_entry))
                    (Line (Caller sample_entry)) true
                  :: (if String.eqb (ServiceName (config sample_root.2)) ""
                      then [ServiceContext "unknown"
                              (ServiceVersion (config sample_root.2))]
                      else [])
             else []).
Proof.
  assert (with_key sourceKey sample_fields = []) as H1 by reflexivity.
  assert (with_key serviceContextKey sample_fields = []) as H2
      by reflexivity.
  assert (with_key contextKey sample_fields = []) as H3 by reflexivity.
  assert (Defined (Caller sample_entry) = true) as H4 by reflexivity.
  split; [exact H1|]. split; [exact H2|]. split; [exact H3|].
  split; [exact H4|].
  exact (Write_record_of_plain_call sample_root.1 sample_root.2 sample_entry
           sample_fields H1 H2 H3 H4).
Defined.

(** ** The entry that [Write] hands over *)

(** X10: the entry handed to the wrapped core never carries a stack: its
    level, time, logger name and caller are those of the entry of the
    call, its message starts with the message of the call, and when the
    entry of the call has no stack it is handed over as it is. *)
Theorem Write_entry_has_no_stack {B} `{!Backend.Ops B} (h : heap)
    (c : core B) (ent : Entry) (fields : list Field) :
  Stack (Write_record h c ent fields).1.2 = ""
  /\ Level (Write_record h c ent fields).1.2 = Level ent
  /\ Time (Write_record h c ent fields).1.2 = Time ent
  /\ LoggerName (Write_record h c ent fields).1.2 = LoggerName ent
  /\ Caller (Write_record h c ent fields).1.2 = Caller ent
  /\ (exists trailer,
        Message (Write_record h c ent fields).1.2
        = Message ent +:+ trailer)
  /\ (Stack ent = "" -> (Write_record h c ent fields).1.2 = ent).
Proof.
  rewrite Write_record_entry. unfold foldStack.
  destruct (String.eqb_spec (Stack ent) "") as [E|Hne]; cbn [negb].
  - repeat split; try done. exists "". by rewrite append_empty_r.
  - cbn [Stack Level Time LoggerName Caller Message].
    repeat split; try done. eexists. by rewrite append_assoc.
Qed.

Lemma no_newline_append (x y : string) :
  no_newline (x +:+ y) = no_newline x && no_newline y.
Proof.
  induction x as [|a x IH]; [reflexivity|].
  change (String a x +:+ y) with (String a (x +:+ y)).
  simpl. by rewrite IH, andb_assoc.
Qed.

Lemma lines_no_newline (s : string) :
  Forall (fun l => no_newline l = true) (lines s).
Proof.
  induction s as [|a s IH]; simpl; [by repeat constructor|].
  destruct (Ascii.eqb a regexp.newline) eqn:Ha; [by constructor|].
  destruct (lines s) as [|l ls]; [by repeat constructor; simpl; rewrite Ha|].
  apply Forall_cons in IH as [Hl Hls]. constructor; [|done].
  simpl. by rewrite Ha, Hl.
Qed.

Lemma lines_one (l : string) : no_newline l = true -> lines l = [l].
Proof.
  induction l as [|a l IH]; [done|]. simpl. intros Hl.
  apply andb_true_iff in Hl as [Ha Hl]. apply negb_true_iff in Ha.
  by rewrite Ha, (IH Hl).
Qed.

Lemma lines_first (l rest : string) :
  no_newline l = true ->
  lines (l +:+ String regexp.newline rest) = l :: lines rest.
Proof.
  induction l as [|a l IH]; [done|]. simpl. intros Hl.
  apply andb_true_iff in Hl as [Ha Hl]. apply negb_true_iff in Ha.
  change (String a l +:+ String regexp.newline rest)
    with (String a (l +:+ String regexp.newline rest)).
  simpl. by rewrite Ha, (IH Hl).
Qed.

Lemma lines_unlines (l : string) (ls : list string) :
  Forall (fun l => no_newline l = true) (l :: ls) ->
  lines (unlines (l :: ls)) = l :: ls.
Proof.
  revert l. induction ls as [|l' ls IH]; intros l Hall.
  - apply lines_one. by apply Forall_cons in Hall as [Hl _].
  - apply Forall_cons in Hall as [Hl Hls].
    change (unlines (l :: l' :: ls))
      with (l +:+ String regexp.newline (unlines (l' :: ls))).
    by rewrite (lines_first _ _ Hl), (IH _ Hls).
Qed.

Lemma markLine_no_newline (l : string) :
  no_newline l = true -> no_newline (markLine l) = true.
Proof.
  intros Hl. unfold markLine. destruct (is_token l); [|done].
  by rewrite no_newline_append, Hl.
Qed.

(** X11: the stack rewrite works line by line.  The lines of the rewritten
    stack are the lines of the stack, each one either as it was or with
    the call marker appended; no line is added, removed or merged. *)
Theorem ReplaceAllString_keeps_lines (stack : string) :
  lines (regexp.ReplaceAllString stack) = List.map markLine (lines stack)
  /\ length (lines (regexp.ReplaceAllString stack)) = length (lines stack)
  /\ Forall2 (fun old new => new = old \/ new = old +:+ "(...)")
       (lines stack) (lines (regexp.ReplaceAllString stack)).
Proof.
  assert (lines (regexp.ReplaceAllString stack)
          = List.map markLine (lines stack)) as Hlines.
  { rewrite ReplaceAllString_markStack. unfold markStack.
    pose proof (lines_no_newline stack) as Hall.
    destruct (lines stack) as [|l ls] eqn:Hs.
    - destruct (lines_cons stack) as (l & ls & E). congruence.
    - simpl List.map. apply lines_unlines.
      apply Forall_cons in Hall as [Hl Hls]. constructor.
      + by apply markLine_no_newline.
      + clear Hs. induction Hls as [|x xs Hx _ IH]; simpl; constructor;
          [by apply markLine_no_newline|done]. }
  rewrite Hlines. split; [done|]. split; [by rewrite length_map|].
  clear Hlines. induction (lines stack) as [|l ls IH]; simpl;
    [constructor|].
  constructor; [|done]. unfold markLine. destruct (is_token l); auto.
Qed.

(** ** Labels through [extractLabels], [With] and [Write] *)

Lemma prefix_append (p s : string) : String.prefix p (p +:+ s) = true.
Proof.
  induction p as [|a p IH]; [by destruct s|].
  change (String a p +:+ s) with (String a (p +:+ s)). simpl.
  by destruct (ascii_dec a a).
Qed.

Lemma isLabelField_prefixed (name value : string) :
  isLabelField (zap.String ("labels." +:+ name) value) = true.
Proof. apply prefix_append. Qed.

(** X12: a label comes back under its name.  A field whose key is the
    prefix followed by a name is a label field, whatever the name is (also
    empty, also one that contains the prefix again: the first occurrence
    alone is removed), and, unless a later label field has the same key,
    the label set of [extractLabels] has the field's string under that
    name. *)
Theorem label_round_trip (h : heap) (name value : string)
    (pre post : list Field) :
  (forall g, In g post -> isLabelField g = true ->
             Key g <> "labels." +:+ name) ->
  isLabelField (zap.String ("labels." +:+ name) value) = true
  /\ strings.Replace1 ("labels." +:+ name) "labels." "" = name
  /\ ((extractLabels h
         (pre ++ zap.String ("labels." +:+ name) value :: post)).1.1
        !!! (extractLabels h
               (pre ++ zap.String ("labels." +:+ name) value :: post)).1.2)
       !! name = Some value.
Proof.
  intros Hpost.
  pose proof (isLabelField_prefixed name value) as Hf.
  split; [exact Hf|]. split; [exact (Replace1_label _ Hf)|].
  rewrite extractLabels_spec. cbn [fst snd].
  rewrite lookup_total_insert_eq, labelsOf_lookup.
  exact (lastLabel_last pre post (zap.String ("labels." +:+ name) value)
           Hf Hpost).
Qed.

Lemma label_round_trip_witness :
  ((extractLabels ∅
      ([zap.String "labels.labels.x" "old"]
         ++ zap.String ("labels." +:+ "labels.x") "new"
         :: [zap.String "labels.y" "2"])).1.1
     !!! (extractLabels ∅
            ([zap.String "labels.labels.x" "old"]
               ++ zap.String ("labels." +:+ "labels.x") "new"
               :: [zap.String "labels.y" "2"])).1.2)
    !! "labels.x" = Some "new".
Proof.
  apply (label_round_trip ∅ "labels.x" "new"
           [zap.String "labels.labels.x" "old"] [zap.String "labels.y" "2"]).
  intros g [<-|[]] _. discriminate.
Defined.

(** X13: with no label field among the fields, [extractLabels] returns
    the fields as they are and an empty label set; so it does for no
    fields at all. *)
Theorem extractLabels_without_labels (h : heap) (fields : list Field) :
  List.filter isLabelField fields = [] ->
  (extractLabels h fields).2 = fields
  /\ (extractLabels h fields).1.1 !! (extractLabels h fields).1.2 = Some ∅
  /\ (extractLabels h []).2 = []
  /\ (extractLabels h []).1.1 !! (extractLabels h []).1.2 = Some ∅.
Proof.
  intros Hnone. rewrite !extractLabels_spec. cbn [fst snd].
  rewrite !lookup_insert_eq, (labelsOf_no_labels _ Hnone).
  repeat split. induction fields as [|f fields IH]; [done|].
  simpl in *. unfold notLabelField at 1.
  destruct (isLabelField f); [discriminate|]. simpl. by rewrite IH.
Qed.

Lemma extractLabels_without_labels_witness :
  List.filter isLabelField [zap.String "user" "u7"; zap.Int64 "n" 5] = []
  /\ (extractLabels ∅ [zap.String "user" "u7"; zap.Int64 "n" 5]).2
     = [zap.String "user" "u7"; zap.Int64 "n" 5].
Proof.
  assert (List.filter isLabelField [zap.String "user" "u7"; zap.Int64 "n" 5]
          = []) as Hnone by reflexivity.
  split; [exact Hnone|].
  exact (proj1 (extractLabels_without_labels ∅ _ Hnone)).
Defined.

Lemma With_then_Write {B} `{!Backend.Ops B} (h : heap) (c : core B)
    (ent : Entry) (fields1 fields : list Field) :
  wf h c ->
  labelsObject
    (Write_record (With h c fields1).1 (With h c fields1).2 ent fields).1.1
    (Write_record (With h c fields1).1 (With h c fields1).2 ent fields).2
  = Some (labelsOf fields ∪ (labelsOf fields1 ∪ (h !!! permLabels c))).
Proof.
  intros Hwf. destruct (With_wf h c fields1 Hwf) as [Hchild _].
  rewrite (Write_record_labels _ _ _ _ Hchild).
  destruct Hwf as (Hp & _ & _).
  destruct (With_child h c fields1 Hp) as (_ & _ & _ & _ & Hperm & Htemp & _).
  rewrite (lookup_total_correct _ _ _ Hperm).
  rewrite (lookup_total_correct _ _ _ Htemp).
  by rewrite (right_id_L ∅ (∪)).
Qed.

(** X14: permanent labels are inherited.  The label object of a record
    written through a child holds the labels of the call, over the labels
    given to [With], over the parent's permanent labels; a grandchild has
    all of them as permanent labels, overridden by its own; and the
    parent's records after the derivation are what they would have been
    without it. *)
Theorem descendants_inherit_labels {B} `{!Backend.Ops B} (h : heap)
    (c : core B) (ent : Entry) (fields1 fields2 fields : list Field) :
  wf h c ->
  let child := With h c fields1 in
  let grandchild := With child.1 child.2 fields2 in
  labelsObject (Write_record child.1 child.2 ent fields).1.1
    (Write_record child.1 child.2 ent fields).2
  = Some (labelsOf fields ∪ (labelsOf fields1 ∪ (h !!! permLabels c)))
  /\ grandchild.1 !! permLabels grandchild.2
     = Some (labelsOf fields2 ∪ (labelsOf fields1 ∪ (h !!! permLabels c)))
  /\ labelsObject
       (Write_record grandchild.1 grandchild.2 ent fields).1.1
       (Write_record grandchild.1 grandchild.2 ent fields).2
     = Some (labelsOf fields
               ∪ (labelsOf fields2
                    ∪ (labelsOf fields1 ∪ (h !!! permLabels c))))
  /\ labelsObject (Write_record child.1 c ent fields).1.1
       (Write_record child.1 c ent fields).2
     = labelsObject (Write_record h c ent fields).1.1
         (Write_record h c ent fields).2.
Proof.
  intros Hwf child grandchild. subst grandchild child.
  destruct (With_wf h c fields1 Hwf) as [Hchild Hparent].
  assert ((With h c fields1).1 !!! permLabels (With h c fields1).2
          = labelsOf fields1 ∪ (h !!! permLabels c)) as Hperm.
  { destruct Hwf as (Hp & _ & _).
    destruct (With_child h c fields1 Hp) as (_ & _ & _ & _ & Hperm & _).
    exact (lookup_total_correct _ _ _ Hperm). }
  split; [by apply With_then_Write|]. split.
  { destruct Hchild as (Hp & _ & _).
    destruct (With_child _ _ fields2 Hp) as (_ & _ & _ & _ & Hg & _).
    by rewrite Hg, Hperm. }
  split.
  { rewrite (With_then_Write _ _ _ _ _ Hchild). by rewrite Hperm. }
  rewrite (Write_record_labels _ _ _ _ Hparent).
  rewrite (Write_record_labels _ _ _ _ Hwf).
  destruct Hwf as (Hp & Ht & _).
  rewrite (lookup_total_eq _ _ _ _ (With_frame h c fields1 _ Hp Hp)).
  by rewrite (lookup_total_eq _ _ _ _ (With_frame h c fields1 _ Hp Ht)).
Qed.

Lemma descendants_inherit_labels_witness :
  wf sample_root.1 sample_root.2
  /\ labelsObject
       (Write_record
          (With sample_root.1 sample_root.2 [zap.String "labels.p" "q"]).1
          (With sample_root.1 sample_root.2 [zap.String "labels.p" "q"]).2
          sample_entry sample_fields).1.1
       (Write_record
          (With sample_root.1 sample_root.2 [zap.String "labels.p" "q"]).1
          (With sample_root.1 sample_root.2 [zap.String "labels.p" "q"]).2
          sample_entry sample_fields).2
     = Some (labelsOf sample_fields
               ∪ (labelsOf [zap.String "labels.p" "q"]
                    ∪ (sample_root.1 !!! permLabels sample_root.2))).
Proof.
  assert (wf sample_root.1 sample_root.2) as Hwf
      by (apply (bool_decide_unpack _); vm_compute; exact I).
  split; [exact Hwf|].
  exact (proj1 (descendants_inherit_labels sample_root.1 sample_root.2
                  sample_entry [zap.String "labels.p" "q"] [] sample_fields
                  Hwf)).
Defined.

(** X15: of the label sets that exist, [Write] changes one: the temporary
    set of its own decorator.  The permanent set of the decorator and the
    sets of every other decorator are after the call what they were
    before. *)
Theorem Write_changes_own_temporary_set_only {B} `{!Backend.Ops B}
    (h : heap) (c : core B) (ent : Entry) (fields : list Field) (l : loc) :
  wf h c -> l ∈ dom h -> l ≠ tempLabels c ->
  (Write h c ent fields).1.1 !! l = h !! l.
Proof.
  intros Hwf Hl Hne.
  rewrite (proj1 (Write_same_sets h c ent fields)).
  rewrite (Write_record_frame _ _ _ _ _ Hwf Hl). by rewrite decide_False.
Qed.

Lemma Write_changes_own_temporary_set_only_witness :
  wf sample_child.1 sample_child.2
  /\ permLabels sample_root.2 ∈ dom sample_child.1
  /\ permLabels sample_root.2 ≠ tempLabels sample_child.2
  /\ (Write sample_child.1 sample_child.2 sample_entry sample_fields).1.1
       !! permLabels sample_root.2
     = sample_child.1 !! permLabels sample_root.2.
Proof.
  assert (wf sample_child.1 sample_child.2) as Hwf
      by (apply (bool_decide_unpack _); vm_compute; exact I).
  assert (permLabels sample_root.2 ∈ dom sample_child.1) as Hl
      by (apply (bool_decide_unpack _); vm_compute; exact I).
  assert (permLabels sample_root.2 ≠ tempLabels sample_child.2) as Hne
      by (vm_compute; discriminate).
  split; [exact Hwf|]. split; [exact Hl|]. split; [exact Hne|].
  exact (Write_changes_own_temporary_set_only sample_child.1 sample_child.2
           sample_entry sample_fields _ Hwf Hl Hne).
Defined.

Lemma wf_mono {B} (h h' : heap) (d : core B) :
  (forall l, l ∈ dom h -> l ∈ dom h') -> wf h d -> wf h' d.
Proof. intros Hsub (Hp & Ht & Hne). repeat split; auto. Qed.

(** X16: the decorators stay well-formed.  A decorator whose two label
    sets are distinct objects that exist keeps this through [Write]; its
    child from [With] has it, in the heap after the call; and every
    decorator that had it before a [Write] or a [With] of this one, the
    decorator itself among them, has it afterwards. *)
Theorem decorators_stay_well_formed {B} `{!Backend.Ops B} (h : heap)
    (c d : core B) (ent : Entry) (fields : list Field) :
  wf h c -> wf h d ->
  wf (Write h c ent fields).1.1 (Write h c ent fields).1.2
  /\ wf (With h c fields).1 (With h c fields).2
  /\ wf (Write h c ent fields).1.1 d
  /\ wf (With h c fields).1 d.
Proof.
  intros Hc Hd. split; [by apply Write_wf|].
  split; [by apply With_wf|]. split.
  - apply (wf_mono h); [|done]. intros l Hl. apply elem_of_dom.
    rewrite (proj1 (Write_same_sets h c ent fields)).
    rewrite (Write_record_frame _ _ _ _ _ Hc Hl).
    case_decide; [done|]. by apply elem_of_dom.
  - apply (wf_mono h); [|done]. intros l Hl. apply elem_of_dom.
    destruct Hc as (Hp & _ & _). rewrite (With_frame _ _ _ _ Hp Hl).
    by apply elem_of_dom.
Qed.

Lemma decorators_stay_well_formed_witness :
  wf sample_child.1 sample_child.2
  /\ wf sample_child.1 sample_root.2
  /\ wf (Write sample_child.1 sample_child.2 sample_entry sample_fields).1.1
       sample_root.2.
Proof.
  assert (wf sample_child.1 sample_child.2) as Hc
      by (apply (bool_decide_unpack _); vm_compute; exact I).
  assert (wf sample_child.1 sample_root.2) as Hd
      by (apply (bool_decide_unpack _); vm_compute; exact I).
  split; [exact Hc|]. split; [exact Hd|].
  exact (proj1 (proj2 (proj2 (decorators_stay_well_formed sample_child.1
                                sample_child.2 sample_root.2 sample_entry
                                sample_fields Hc Hd)))).
Defined.

(** ** The copy loops *)

(** X17: the loops that copy one label set into another (in [With],
    [Write] and [allLabels]).  The target gets every label of the source,
    the source's value replacing the target's for a name that both have;
    the other labels of the target stay; every other label set, the source
    among them, is as it was; and copying a set into itself changes
    nothing. *)
Theorem copy_store_merges (h : heap) (src dst : loc) :
  dst ∈ dom h ->
  (forall name,
     (copy_store h src dst !!! dst) !! name
     = match (h !!! src) !! name with
       | Some v => Some v
       | None => (h !!! dst) !! name
       end)
  /\ (forall l, l ≠ dst -> copy_store h src dst !! l = h !! l)
  /\ dom (copy_store h src dst) = dom h
  /\ copy_store h dst dst = h.
Proof.
  intros Hdst. rewrite !(copy_store_union _ _ _ Hdst).
  split; [|split; [|split]].
  - intros name. rewrite lookup_total_insert_eq, lookup_union.
    by destruct ((h !!! src) !! name), ((h !!! dst) !! name).
  - intros l Hl. by rewrite lookup_insert_ne.
  - apply set_eq. intros x.
    rewrite dom_insert_L, elem_of_union, elem_of_singleton.
    split; [by intros [->|]|auto].
  - rewrite (idemp_L (∪)). apply insert_id.
    apply elem_of_dom in Hdst as [m Hm].
    by rewrite (lookup_total_correct _ _ _ Hm).
Qed.

Lemma copy_store_merges_witness :
  permLabels sample_child.2 ∈ dom sample_child.1
  /\ copy_store sample_child.1 (permLabels sample_child.2)
       (permLabels sample_child.2) = sample_child.1.
Proof.
  assert (permLabels sample_child.2 ∈ dom sample_child.1) as Hdst
      by (apply (bool_decide_unpack _); vm_compute; exact I).
  split; [exact Hdst|].
  exact (proj2 (proj2 (proj2 (copy_store_merges sample_child.1
                                (permLabels sample_child.2)
                                (permLabels sample_child.2) Hdst)))).
Defined.

(** ** [Write] before [With] *)

(** X18: the labels of a call never become permanent.  A child derived
    after a [Write] of its parent has the parent's permanent labels and
    the labels given to [With], and none of the labels that the call
    carried. *)
Theorem call_labels_are_not_inherited {B} `{!Backend.Ops B} (h : heap)
    (c : core B) (ent : Entry) (fields fields1 : list Field) :
  wf h c ->
  (With (Write h c ent fields).1.1 (Write h c ent fields).1.2 fields1).1
    !! permLabels
         (With (Write h c ent fields).1.1 (Write h c ent fields).1.2
            fields1).2
  = Some (labelsOf fields1 ∪ (h !!! permLabels c))
  /\ (With (Write h c ent fields).1.1 (Write h c ent fields).1.2 fields1).1
       !! permLabels
            (With (Write h c ent fields).1.1 (Write h c ent fields).1.2
               fields1).2
     = (With h c fields1).1 !! permLabels (With h c fields1).2.
Proof.
  intros Hwf.
  pose proof (Write_wf h c ent fields Hwf) as (Hp' & _ & _).
  destruct (With_child _ _ fields1 Hp') as (_ & _ & _ & _ & Hperm & _).
  destruct (Write_same_sets h c ent fields) as (Hh & Hp & _).
  pose proof Hwf as (Hpc & Htc & Hne).
  assert ((Write h c ent fields).1.1 !!! permLabels (Write h c ent fields).1.2
          = h !!! permLabels c) as Hsame.
  { apply lookup_total_eq. rewrite Hp, Hh.
    rewrite (Write_record_frame _ _ _ _ _ Hwf Hpc). by rewrite decide_False. }
  rewrite Hperm, Hsame. split; [done|].
  destruct (With_child h c fields1 Hpc) as (_ & _ & _ & _ & Hperm0 & _).
  by rewrite Hperm0.
Qed.

Lemma call_labels_are_not_inherited_witness :
  wf sample_root.1 sample_root.2
  /\ (With (Write sample_root.1 sample_root.2 sample_entry sample_fields).1.1
        (Write sample_root.1 sample_root.2 sample_entry sample_fields).1.2
        [zap.String "labels.p" "q"]).1
       !! permLabels
            (With
               (Write sample_root.1 sample_root.2 sample_entry
                  sample_fields).1.1
               (Write sample_root.1 sample_root.2 sample_entry
                  sample_fields).1.2
               [zap.String "labels.p" "q"]).2
     = Some (labelsOf [zap.String "labels.p" "q"]
               ∪ (sample_root.1 !!! permLabels sample_root.2)).
Proof.
  assert (wf sample_root.1 sample_root.2) as Hwf
      by (apply (bool_decide_unpack _); vm_compute; exact I).
  split; [exact Hwf|].
  exact (proj1 (call_labels_are_not_inherited sample_root.1 sample_root.2
                  sample_entry sample_fields [zap.String "labels.p" "q"]
                  Hwf)).
Defined.
